(** * ai_webscraper: the URL normaliser, the DOM heuristics and the depth crawler

    A shallow embedding of [utils/bs4.py] and [crawlers/request_crawler.py].

    Conventions.
    - A Python [str] is a [string] holding its UTF-8 encoding; [Py.len] counts
      code points.  Case mapping, [strip] and [isdigit] are the ASCII ones.
    - A function that can raise returns [option]; [None] is the exception.
    - [urllib.parse] is embedded from CPython 3.11.  Two checks it delegates
      to other modules ([ipaddress.ip_address], [unicodedata.normalize]) are
      section variables.
    - The parse tree BeautifulSoup builds is the input of the HTML
      functions: a [node] whose root is the [BeautifulSoup] object.
    - Python integers are [Z]; times are [Z] ticks of the clock. *)

From Stdlib Require Import ZArith List String Ascii Bool Lia Permutation.
From stdpp Require Import base option gmap strings list sorting.

Open Scope string_scope.
#[local] Set Warnings "-register-all".

(** ** Python string operations *)

Module Py.

(** [bool(s)] *)
Definition truthy (s : string) : bool :=
  match s with EmptyString => false | _ => true end.

(** [s.startswith(p)] *)
Fixpoint startswith (s p : string) : bool :=
  match p, s with
  | EmptyString, _ => true
  | String a p', String b s' => Ascii.eqb a b && startswith s' p'
  | String _ _, EmptyString => false
  end.

(** [p in s] *)
Fixpoint str_in (p s : string) : bool :=
  startswith s p ||
  match s with
  | EmptyString => false
  | String _ s' => str_in p s'
  end.

(** [c in s] for a one-character [c] *)
Fixpoint char_in (c : ascii) (s : string) : bool :=
  match s with
  | EmptyString => false
  | String a s' => Ascii.eqb a c || char_in c s'
  end.

(** [x in l] for a list of strings *)
Definition in_list (x : string) (l : list string) : bool :=
  existsb (String.eqb x) l.

Definition rev (s : string) : string :=
  string_of_list_ascii (List.rev (list_ascii_of_string s)).

(** [s.endswith(p)] *)
Definition endswith (s p : string) : bool := startswith (rev s) (rev p).

(** [s[:-1]] *)
Fixpoint drop_last (s : string) : string :=
  match s with
  | EmptyString => EmptyString
  | String _ EmptyString => EmptyString
  | String a s' => String a (drop_last s')
  end.

(** [s.partition(c)]: the text before the first [c], and the text after it
    when [c] occurs. *)
Fixpoint partition (s : string) (c : ascii) : string * option string :=
  match s with
  | EmptyString => (EmptyString, None)
  | String a s' =>
      if Ascii.eqb a c then (EmptyString, Some s')
      else let '(h, t) := partition s' c in (String a h, t)
  end.

(** [(s[:r], s[r:])] for [r = s.rfind(c)], when [c] occurs. *)
Fixpoint rsplit_from (s : string) (c : ascii) : option (string * string) :=
  match s with
  | EmptyString => None
  | String a s' =>
      match rsplit_from s' c with
      | Some (h, t) => Some (String a h, t)
      | None => if Ascii.eqb a c then Some (EmptyString, s) else None
      end
  end.

(** [s.rpartition(c)[2]] *)
Definition after_last (s : string) (c : ascii) : string :=
  match rsplit_from s c with
  | Some (_, String _ t) => t
  | _ => s
  end.

(** The longest prefix whose characters satisfy [p], and the rest. *)
Fixpoint span (p : ascii -> bool) (s : string) : string * string :=
  match s with
  | EmptyString => (EmptyString, EmptyString)
  | String a s' =>
      if p a then let '(h, t) := span p s' in (String a h, t)
      else (EmptyString, s)
  end.

(** [s.split(c)] *)
Fixpoint split (s : string) (c : ascii) : list string :=
  match s with
  | EmptyString => [EmptyString]
  | String a s' =>
      if Ascii.eqb a c then EmptyString :: split s' c
      else match split s' c with
           | h :: t => String a h :: t
           | [] => [String a EmptyString]
           end
  end.

(** [sep.join(l)] *)
Fixpoint join (sep : string) (l : list string) : string :=
  match l with
  | [] => EmptyString
  | [x] => x
  | x :: l' => x +:+ sep +:+ join sep l'
  end.

Fixpoint filter_chars (p : ascii -> bool) (s : string) : string :=
  match s with
  | EmptyString => EmptyString
  | String a s' => if p a then String a (filter_chars p s') else filter_chars p s'
  end.

Fixpoint all_chars (p : ascii -> bool) (s : string) : bool :=
  match s with
  | EmptyString => true
  | String a s' => p a && all_chars p s'
  end.

Definition code (a : ascii) : nat := nat_of_ascii a.

Definition is_ascii (a : ascii) : bool := (code a <? 128)%nat.
Definition is_upper (a : ascii) : bool :=
  ((65 <=? code a) && (code a <=? 90))%nat.
Definition is_lower (a : ascii) : bool :=
  ((97 <=? code a) && (code a <=? 122))%nat.
Definition is_alpha (a : ascii) : bool := is_upper a || is_lower a.
Definition is_digit (a : ascii) : bool :=
  ((48 <=? code a) && (code a <=? 57))%nat.
Definition is_hex (a : ascii) : bool :=
  (is_digit a || ((65 <=? code a) && (code a <=? 70))
              || ((97 <=? code a) && (code a <=? 102)))%nat.

(** The ASCII characters [str.strip()] removes. *)
Definition is_space (a : ascii) : bool :=
  (((9 <=? code a) && (code a <=? 13)) ||
   ((28 <=? code a) && (code a <=? 32)))%nat.

Definition lower_char (a : ascii) : ascii :=
  if is_upper a then ascii_of_nat (code a + 32)%nat else a.

(** [s.lower()] *)
Fixpoint lower (s : string) : string :=
  match s with
  | EmptyString => EmptyString
  | String a s' => String (lower_char a) (lower s')
  end.

Fixpoint lstrip_by (p : ascii -> bool) (s : string) : string :=
  match s with
  | EmptyString => EmptyString
  | String a s' => if p a then lstrip_by p s' else s
  end.

Definition strip_by (p : ascii -> bool) (s : string) : string :=
  rev (lstrip_by p (rev (lstrip_by p s))).

(** [s.strip()] *)
Definition strip (s : string) : string := strip_by is_space s.

(** [s.isdigit()] *)
Definition isdigit (s : string) : bool := truthy s && all_chars is_digit s.

(** [len(s)]: the bytes that start a code point. *)
Fixpoint len (s : string) : nat :=
  match s with
  | EmptyString => 0
  | String a s' =>
      if ((128 <=? code a) && (code a <? 192))%nat
      then len s' else S (len s')
  end.

(** [re.compile(w1|w2|..., re.I).search(s)] for literal alternatives. *)
Definition search_words_nocase (words : list string) (s : string) : bool :=
  existsb (fun w => str_in (lower w) (lower s)) words.

(** [s[:n]] for [n >= 0]: the first [n] code points *)
Fixpoint take (n : nat) (s : string) : string :=
  match s with
  | EmptyString => EmptyString
  | String a s' =>
      if ((128 <=? code a) && (code a <? 192))%nat then String a (take n s')
      else match n with
           | O => EmptyString
           | S n' => String a (take n' s')
           end
  end.

(** [s[:n]] *)
Definition slice_to (s : string) (n : Z) : string :=
  if (0 <=? n)%Z then take (Z.to_nat n) s
  else take (len s - Z.to_nat (- n)) s.

End Py.

(** ** urllib.parse *)

Module Urllib.

Definition uses_relative : list string :=
  [""; "ftp"; "http"; "gopher"; "nntp"; "imap"; "wais"; "file"; "https";
   "shttp"; "mms"; "prospero"; "rtsp"; "rtspu"; "sftp"; "svn"; "svn+ssh";
   "ws"; "wss"].

Definition uses_netloc : list string :=
  [""; "ftp"; "http"; "gopher"; "nntp"; "telnet"; "imap"; "wais"; "file";
   "mms"; "https"; "shttp"; "snews"; "prospero"; "rtsp"; "rtspu"; "rsync";
   "svn"; "svn+ssh"; "sftp"; "nfs"; "git"; "git+ssh"; "ws"; "wss"].

Definition uses_params : list string :=
  [""; "ftp"; "hdl"; "prospero"; "http"; "imap"; "https"; "shttp"; "rtsp";
   "rtspu"; "sip"; "sips"; "mms"; "sftp"; "tel"].

Definition scheme_char (a : ascii) : bool :=
  Py.is_alpha a || Py.is_digit a || Py.char_in a "+-.".

(** [_WHATWG_C0_CONTROL_OR_SPACE] *)
Definition c0_control_or_space (a : ascii) : bool :=
  (Py.code a <=? 32)%nat.

(** [_UNSAFE_URL_BYTES_TO_REMOVE] *)
Definition unsafe_url_byte (a : ascii) : bool :=
  ((Py.code a =? 9) || (Py.code a =? 13) || (Py.code a =? 10))%nat.

Record SplitResult := mkSplit {
  s_scheme : string; s_netloc : string; s_path : string;
  s_query : string; s_fragment : string }.

Record ParseResult := mkParse {
  scheme : string; netloc : string; path : string;
  params : string; query : string; fragment : string }.

Section Parse.

(** [isinstance(ipaddress.ip_address(h), ipaddress.IPv6Address)], false when
    [ip_address] raises. *)
Variable is_ipv6_address : string -> bool.
(** [unicodedata.normalize('NFKC', s)] *)
Variable nfkc : string -> string.

(** [_splitparams] *)
Definition _splitparams (url : string) : string * string :=
  match Py.rsplit_from url "/" with
  | Some (pre, seg) =>
      match Py.partition seg ";" with
      | (_, None) => (url, "")
      | (h, Some t) => (pre +:+ h, t)
      end
  | None =>
      match Py.partition url ";" with
      | (h, Some t) => (h, t)
      | (h, None) => (Py.drop_last url, url)
      end
  end.

(** [_splitnetloc(url, 2)], applied to [url[2:]] *)
Definition _splitnetloc (rest : string) : string * string :=
  Py.span (fun a => negb (Py.char_in a "/?#")) rest.

(** [_checknetloc]: [true] when it returns, [false] when it raises. *)
Definition _checknetloc (netloc : string) : bool :=
  if negb (Py.truthy netloc) || Py.all_chars Py.is_ascii netloc then true
  else
    let n := Py.filter_chars (fun a => negb (Py.char_in a "@:#?")) netloc in
    let netloc2 := nfkc n in
    if String.eqb n netloc2 then true
    else negb (existsb (fun c => Py.char_in c netloc2)
                 (list_ascii_of_string "/?#@:")).

(** [re.match(r"\Av[a-fA-F0-9]+\..+\Z", hostname)] *)
Definition ipvfuture (hostname : string) : bool :=
  match hostname with
  | String "v" r =>
      let '(hex, r') := Py.span Py.is_hex r in
      Py.truthy hex &&
      match r' with
      | String "." r'' => Py.truthy r''
      | _ => false
      end
  | _ => false
  end.

(** [_check_bracketed_host] *)
Definition _check_bracketed_host (hostname : string) : bool :=
  if Py.startswith hostname "v" then ipvfuture hostname
  else is_ipv6_address hostname.

(** [_check_bracketed_netloc] *)
Definition _check_bracketed_netloc (netloc : string) : bool :=
  let hostname_and_port := Py.after_last netloc "@" in
  match Py.partition hostname_and_port "[" with
  | (before_bracket, Some bracketed) =>
      if Py.truthy before_bracket then false
      else
        let '(hostname, port) := Py.partition bracketed "]" in
        let port := default "" port in
        if Py.truthy port && negb (Py.startswith port ":") then false
        else _check_bracketed_host hostname
  | (_, None) =>
      _check_bracketed_host (fst (Py.partition hostname_and_port ":"))
  end.

(** [urlsplit(url, scheme)] *)
Definition urlsplit (url scheme : string) : option SplitResult :=
  let url := Py.lstrip_by c0_control_or_space url in
  let scheme := Py.strip_by c0_control_or_space scheme in
  let url := Py.filter_chars (fun a => negb (unsafe_url_byte a)) url in
  let scheme := Py.filter_chars (fun a => negb (unsafe_url_byte a)) scheme in
  let '(scheme, url) :=
    match Py.partition url ":" with
    | (String a pre, Some rest) =>
        if Py.is_alpha a && Py.all_chars scheme_char (String a pre)
        then (Py.lower (String a pre), rest)
        else (scheme, url)
    | _ => (scheme, url)
    end in
  '(netloc, url) ←
    match url with
    | String "/" (String "/" rest) =>
        let '(netloc, url) := _splitnetloc rest in
        if (Py.char_in "[" netloc && negb (Py.char_in "]" netloc)) ||
           (Py.char_in "]" netloc && negb (Py.char_in "[" netloc))
        then None
        else if Py.char_in "[" netloc && Py.char_in "]" netloc
                && negb (_check_bracketed_netloc netloc)
        then None
        else Some (netloc, url)
    | _ => Some ("", url)
    end;
  let '(url, fragment) :=
    match Py.partition url "#" with
    | (h, Some t) => (h, t)
    | (_, None) => (url, "")
    end in
  let '(url, query) :=
    match Py.partition url "?" with
    | (h, Some t) => (h, t)
    | (_, None) => (url, "")
    end in
  if _checknetloc netloc
  then Some (mkSplit scheme netloc url query fragment)
  else None.

(** [urlparse(url, scheme)] *)
Definition urlparse (url scheme : string) : option ParseResult :=
  splitresult ← urlsplit url scheme;
  let '(mkSplit scheme netloc url query fragment) := splitresult in
  let '(url, params) :=
    if Py.in_list scheme uses_params && Py.char_in ";" url
    then _splitparams url
    else (url, "") in
  Some (mkParse scheme netloc url params query fragment).

(** [urlunsplit] *)
Definition urlunsplit (scheme netloc url query fragment : string) : string :=
  let url :=
    if Py.truthy netloc ||
       (Py.truthy scheme && Py.in_list scheme uses_netloc
        && negb (Py.startswith url "//"))
    then
      let url := if Py.truthy url && negb (Py.startswith url "/")
                 then "/" +:+ url else url in
      "//" +:+ netloc +:+ url
    else url in
  let url := if Py.truthy scheme then scheme +:+ ":" +:+ url else url in
  let url := if Py.truthy query then url +:+ "?" +:+ query else url in
  if Py.truthy fragment then url +:+ "#" +:+ fragment else url.

(** [urlunparse] *)
Definition urlunparse (scheme netloc url params query fragment : string)
  : string :=
  let url := if Py.truthy params then url +:+ ";" +:+ params else url in
  urlunsplit scheme netloc url query fragment.

(** [segments[1:-1] = filter(None, segments[1:-1])] *)
Definition filter_middle (segments : list string) : list string :=
  match segments with
  | [] => []
  | [x] => [x]
  | x :: rest =>
      (x :: List.filter Py.truthy (removelast rest) ++ [List.last rest ""])%list
  end.

(** The loop of [urljoin] over the segments; [resolved_path] is kept
    reversed. *)
Fixpoint resolve_segments (segments resolved_rev : list string)
  : list string :=
  match segments with
  | [] => List.rev resolved_rev
  | seg :: segments' =>
      if String.eqb seg ".." then resolve_segments segments' (tl resolved_rev)
      else if String.eqb seg "." then resolve_segments segments' resolved_rev
      else resolve_segments segments' (seg :: resolved_rev)
  end.

(** [urljoin(base, url)] *)
Definition urljoin (base url : string) : option string :=
  if negb (Py.truthy base) then Some url
  else if negb (Py.truthy url) then Some base
  else
    b ← urlparse base "";
    u ← urlparse url (scheme b);
    let '(mkParse bscheme bnetloc bpath bparams bquery bfragment) := b in
    let '(mkParse scheme netloc path params query fragment) := u in
    if negb (String.eqb scheme bscheme) || negb (Py.in_list scheme uses_relative)
    then Some url
    else if Py.in_list scheme uses_netloc && Py.truthy netloc
    then Some (urlunparse scheme netloc path params query fragment)
    else
      let netloc := if Py.in_list scheme uses_netloc then bnetloc else netloc in
      if negb (Py.truthy path) && negb (Py.truthy params)
      then
        let query := if negb (Py.truthy query) then bquery else query in
        Some (urlunparse scheme netloc bpath bparams query fragment)
      else
        let base_parts := Py.split bpath "/" in
        let base_parts :=
          if negb (String.eqb (List.last base_parts "") "")
          then removelast base_parts else base_parts in
        let segments :=
          if Py.startswith path "/" then Py.split path "/"
          else filter_middle (base_parts ++ Py.split path "/")%list in
        let resolved_path := resolve_segments segments [] in
        let resolved_path :=
          if Py.in_list (List.last segments "") ["."; ".."]
          then (resolved_path ++ [""])%list else resolved_path in
        let joined := Py.join "/" resolved_path in
        Some (urlunparse scheme netloc
                (if Py.truthy joined then joined else "/")
                params query fragment).

(** [urldefrag(url)] *)
Definition urldefrag (url : string) : option (string * string) :=
  if Py.char_in "#" url then
    p ← urlparse url "";
    Some (urlunparse (scheme p) (netloc p) (path p) (params p) (query p) "",
          fragment p)
  else Some (url, "").

End Parse.

End Urllib.

(** ** The parse tree *)

Module Dom.

(** An attribute value: a string, or the list of values of a multi-valued
    attribute ([class]). *)
Inductive attr_value :=
| AttrStr (s : string)
| AttrList (l : list string).

(** [NavigableString] and [Tag]; the [BeautifulSoup] object is the [Tag]
    named [[document]] at the root. *)
Inductive node :=
| Text (s : string)
| Tag (name : string) (attrs : list (string * attr_value))
      (contents : list node).

Definition document (contents : list node) : node :=
  Tag "[document]" [] contents.

(** An element of a tree: where it is, and the subtree there. *)
Record elem := mkElem { e_path : list nat; e_tag : node }.

Definition name_of (n : node) : string :=
  match n with Tag name _ _ => name | Text _ => "" end.

Definition attrs_of (n : node) : list (string * attr_value) :=
  match n with Tag _ attrs _ => attrs | Text _ => [] end.

Definition contents_of (n : node) : list node :=
  match n with Tag _ _ cs => cs | Text _ => [] end.

Definition is_tag (n : node) : bool :=
  match n with Tag _ _ _ => true | Text _ => false end.

(** [tag.get(key)] *)
Fixpoint lookup_attr (key : string) (attrs : list (string * attr_value))
  : option attr_value :=
  match attrs with
  | [] => None
  | (k, v) :: attrs' =>
      if String.eqb k key then Some v else lookup_attr key attrs'
  end.

Definition get (n : node) (key : string) : option attr_value :=
  lookup_attr key (attrs_of n).

(** The value as one string, a list joined by spaces. *)
Definition attr_text (v : attr_value) : string :=
  match v with
  | AttrStr s => s
  | AttrList l => Py.join " " l
  end.

(** [tag.get(key, "")] for a single-valued attribute *)
Definition get_str (n : node) (key : string) : string :=
  match get n key with
  | Some v => attr_text v
  | None => ""
  end.

(** [" ".join(v)]: the elements of a list, or the characters of a string *)
Definition join_value (v : attr_value) : string :=
  match v with
  | AttrList l => Py.join " " l
  | AttrStr s =>
      Py.join " "
        (map (fun a => String a EmptyString) (list_ascii_of_string s))
  end.

(** [" ".join(tag.get("class", ""))] *)
Definition class_text (n : node) : string :=
  match get n "class" with
  | Some v => join_value v
  | None => ""
  end.

Definition attr_value_eqb (v w : attr_value) : bool :=
  match v, w with
  | AttrStr s, AttrStr t => String.eqb s t
  | AttrList l, AttrList m =>
      (length l =? length m)%nat &&
      forallb (fun '(s, t) => String.eqb s t) (combine l m)
  | _, _ => false
  end.

(** Equality of two attribute dictionaries *)
Definition attrs_eqb (a b : list (string * attr_value)) : bool :=
  (length a =? length b)%nat &&
  forallb (fun '(k, v) =>
             match lookup_attr k b with
             | Some w => attr_value_eqb v w
             | None => false
             end) a.

(** [Tag.__eq__]: same name, same attributes, same contents *)
Fixpoint node_eqb (n m : node) : bool :=
  match n, m with
  | Text s, Text t => String.eqb s t
  | Tag name attrs cs, Tag name' attrs' cs' =>
      String.eqb name name' && attrs_eqb attrs attrs' &&
      (fix all2 (l : list node) (l' : list node) : bool :=
         match l, l' with
         | [], [] => true
         | c :: l, c' :: l' => node_eqb c c' && all2 l l'
         | _, _ => false
         end) cs cs'
  | _, _ => false
  end.

(** The tags below [n] in document order, with their paths from [n]:
    [n.find_all(True)]. *)
Fixpoint descendants (n : node) : list elem :=
  match n with
  | Text _ => []
  | Tag _ _ cs =>
      (fix go (i : nat) (cs : list node) : list elem :=
         match cs with
         | [] => []
         | c :: cs' =>
             ((if is_tag c then [mkElem [i] c] else []) ++
              map (fun e => mkElem (i :: e_path e) (e_tag e)) (descendants c)
              ++ go (S i) cs')%list
         end) 0%nat cs
  end.

(** The strings below [n] in document order *)
Fixpoint strings (n : node) : list string :=
  match n with
  | Text s => [s]
  | Tag _ _ cs =>
      (fix go (cs : list node) : list string :=
         match cs with
         | [] => []
         | c :: cs' => (strings c ++ go cs')%list
         end) cs
  end.

(** [tag.get_text()] *)
Definition get_text (n : node) : string := Py.join "" (strings n).

(** [tag.stripped_strings] *)
Definition stripped_strings (n : node) : list string :=
  List.filter Py.truthy (map Py.strip (strings n)).

(** [tag.string] *)
Fixpoint string_of (n : node) : option string :=
  match n with
  | Text s => Some s
  | Tag _ _ [c] => string_of c
  | Tag _ _ _ => None
  end.

(** The node at a path *)
Fixpoint node_at (n : node) (p : list nat) : option node :=
  match p with
  | [] => Some n
  | i :: p' =>
      match nth_error (contents_of n) i with
      | Some c => node_at c p'
      | None => None
      end
  end.

(** [tag.find_parent()] in the tree [soup] *)
Definition find_parent (soup : node) (e : elem) : option elem :=
  match e_path e with
  | [] => None
  | _ :: _ =>
      let pp := removelast (e_path e) in
      match node_at soup pp with
      | Some n => Some (mkElem pp n)
      | None => None
      end
  end.

(** [soup.find_all(names)] *)
Definition find_all (soup : node) (names : list string) : list elem :=
  List.filter (fun e => Py.in_list (name_of (e_tag e)) names)
    (descendants soup).

(** The names of the ancestors of the element at [p], nearest first, the
    root left out. *)
Fixpoint ancestor_names (n : node) (p : list nat) (acc : list string)
  : list string :=
  match p with
  | [] => acc
  | i :: p' =>
      match nth_error (contents_of n) i with
      | Some c =>
          match p' with
          | [] => acc
          | _ => ancestor_names c p' (name_of c :: acc)
          end
      | None => acc
      end
  end.

(** The CSS selectors the heuristics use *)
Inductive selector :=
| AttrContains (attr value : string)
| AttrEquals (attr value : string)
| DescendantChain (ancestors : list string) (name : string)
| SoupContains (name text : string).

(** [needles], nearest first, occur in this order among [names]. *)
Fixpoint chain_matches (needles names : list string) : bool :=
  match needles with
  | [] => true
  | x :: needles' =>
      (fix find (names : list string) : bool :=
         match names with
         | [] => false
         | y :: names' =>
             if String.eqb x y then chain_matches needles' names'
             else find names'
         end) names
  end.

Definition matches (soup : node) (sel : selector) (e : elem) : bool :=
  match sel with
  | AttrContains attr value =>
      match get (e_tag e) attr with
      | Some v => Py.truthy value && Py.str_in value (attr_text v)
      | None => false
      end
  | AttrEquals attr value =>
      match get (e_tag e) attr with
      | Some v => String.eqb (attr_text v) value
      | None => false
      end
  | DescendantChain ancestors name =>
      String.eqb (name_of (e_tag e)) name &&
      chain_matches (List.rev ancestors) (ancestor_names soup (e_path e) [])
  | SoupContains name text =>
      String.eqb (name_of (e_tag e)) name &&
      Py.str_in text (get_text (e_tag e))
  end.

(** [soup.select(selector)] *)
Definition select (soup : node) (sel : selector) : list elem :=
  List.filter (matches soup sel) (descendants soup).

(** *** Serialisation, for [len(str(tag))] *)

Fixpoint replace_char (c : ascii) (by_ : string) (s : string) : string :=
  match s with
  | EmptyString => EmptyString
  | String a s' =>
      (if Ascii.eqb a c then by_ else String a EmptyString)
      +:+ replace_char c by_ s'
  end.

(** The substitution of the [minimal] formatter *)
Definition escape (s : string) : string :=
  replace_char ">" "&gt;" (replace_char "<" "&lt;" (replace_char "&" "&amp;" s)).

Definition double_quote : ascii := ascii_of_nat 34.
Definition dq : string := String double_quote EmptyString.

(** [quoted_attribute_value] *)
Definition quoted_attribute_value (value : string) : string :=
  if Py.char_in double_quote value then
    if Py.char_in "'" value
    then dq +:+ replace_char double_quote "&quot;" value +:+ dq
    else "'" +:+ value +:+ "'"
  else dq +:+ value +:+ dq.

Definition empty_element_tags : list string :=
  ["area"; "base"; "br"; "col"; "embed"; "hr"; "img"; "input"; "keygen";
   "link"; "menuitem"; "meta"; "param"; "source"; "track"; "wbr";
   "basefont"; "bgsound"; "command"; "frame"; "image"; "isindex"; "nextid";
   "spacer"].

Definition cdata_containing_tags : list string := ["script"; "style"].

Definition attrs_str (attrs : list (string * attr_value)) : string :=
  Py.join ""
    (map (fun '(k, v) =>
            " " +:+ k +:+ "=" +:+ quoted_attribute_value (escape (attr_text v)))
       attrs).

(** [str(tag)], the attributes in the order of the tree *)
Fixpoint to_str (n : node) : string :=
  match n with
  | Text s => escape s
  | Tag name attrs cs =>
      let inner :=
        (fix go (cs : list node) : string :=
           match cs with
           | [] => EmptyString
           | c :: cs' =>
               (match c with
                | Text s =>
                    if Py.in_list name cdata_containing_tags then s
                    else escape s
                | Tag _ _ _ => to_str c
                end) +:+ go cs'
           end) cs in
      if String.eqb name "[document]" then inner
      else
        match cs with
        | [] =>
            if Py.in_list name empty_element_tags
            then "<" +:+ name +:+ attrs_str attrs +:+ "/>"
            else "<" +:+ name +:+ attrs_str attrs +:+ "></" +:+ name +:+ ">"
        | _ =>
            "<" +:+ name +:+ attrs_str attrs +:+ ">" +:+ inner
            +:+ "</" +:+ name +:+ ">"
        end
  end.

(** [len(str(tag))] *)
Definition str_len (n : node) : nat := Py.len (to_str n).

(** *** Sets of tags, sorting, slicing *)

(** [s.add(e)] on a set of tags, kept in insertion order: a tag equal to one
    of the set is not added. *)
Definition set_add (s : list elem) (e : elem) : list elem :=
  if existsb (fun x => node_eqb (e_tag x) (e_tag e)) s then s
  else (s ++ [e])%list.

Definition set_add_all (s : list elem) (es : list elem) : list elem :=
  fold_left set_add es s.

Fixpoint insert_by (before : elem -> elem -> bool) (x : elem)
  (l : list elem) : list elem :=
  match l with
  | [] => [x]
  | y :: l' => if before y x then y :: insert_by before x l' else x :: l
  end.

(** [sorted(l, key=lambda x: len(str(x)))], stable *)
Definition sorted_by_len (l : list elem) : list elem :=
  fold_left
    (fun acc x =>
       insert_by (fun y x => (str_len (e_tag y) <=? str_len (e_tag x))%nat)
         x acc) l [].

(** [sorted(l, key=lambda x: len(str(x)), reverse=True)], stable *)
Definition sorted_by_len_reverse (l : list elem) : list elem :=
  fold_left
    (fun acc x =>
       insert_by (fun y x => (str_len (e_tag x) <=? str_len (e_tag y))%nat)
         x acc) l [].

(** [container in existing_container.find_all(True)] *)
Definition in_find_all (container existing : elem) : bool :=
  existsb (fun d => node_eqb (e_tag d) (e_tag container))
    (descendants (e_tag existing)).

(** The loop that drops a container found below one already kept *)
Definition drop_redundant (sorted_containers : list elem) : list elem :=
  fold_left
    (fun final_containers container =>
       if existsb (in_find_all container) final_containers
       then final_containers
       else (final_containers ++ [container])%list)
    sorted_containers [].

(** [l[:n]] *)
Definition slice_to {A} (l : list A) (n : Z) : list A :=
  if (0 <=? n)%Z then firstn (Z.to_nat n) l
  else firstn (length l - Z.to_nat (- n)) l.

(** The text of the tags outside [preserve_text_tags] blanked *)
Fixpoint blank (preserve_text_tags : list string) (n : node) : node :=
  match n with
  | Text s => Text s
  | Tag name attrs cs =>
      Tag name attrs
        (map (fun c =>
                match c with
                | Text s =>
                    if negb (Py.in_list name preserve_text_tags)
                       && Py.truthy (Py.strip s)
                    then Text " " else c
                | Tag _ _ _ => blank preserve_text_tags c
                end) cs)
  end.

(** [BeautifulSoup(str(container), "html.parser")] with the text blanked:
    the tree whose [prettify()] is the snippet.  Parsing [str(container)]
    gives the container's tree back. *)
Definition snippet (preserve_text_tags : list string) (container : elem)
  : node :=
  let reparsed :=
    match e_path container with
    | [] => contents_of (e_tag container)
    | _ => [e_tag container]
    end in
  document
    (map (fun c => if is_tag c then blank preserve_text_tags c else c)
       reparsed).

End Dom.

(** ** utils/bs4.py *)

Import Dom.

(** The strings of [next_prev_symbols] *)
Definition next_prev_symbols : list string :=
  ["»"; "›"; ">"; "→"; "«"; "‹"; "<"; "←"].

(** The alternatives of [next_prev_texts] *)
Definition next_prev_texts : list string :=
  ["next"; "previous"; "prev"; "back"; "more"; "older"; "newer";
   "continuar"; "siguiente"; "anterior"].

Definition pagination_keyword_selectors : list selector :=
  [AttrContains "class" "pagination"; AttrContains "id" "pagination";
   AttrContains "class" "pager"; AttrContains "id" "pager";
   AttrContains "class" "pages"; AttrContains "id" "pages";
   AttrContains "aria-label" "pagination"; AttrEquals "role" "navigation"].

Definition structural_selectors : list selector :=
  [DescendantChain ["nav"; "ul"; "li"] "a"].

Definition load_more_selectors : list selector :=
  [SoupContains "button" "Load more"; SoupContains "button" "Show more";
   SoupContains "a" "Load more"; SoupContains "a" "Show more"].

(** [tag.string and p(tag.string)] *)
Definition string_and (p : string -> bool) (tag : node) : bool :=
  match string_of tag with
  | Some s => Py.truthy s && p s
  | None => false
  end.

(** [tag.get("aria-label") and p(tag.get("aria-label"))] *)
Definition aria_label_and (p : string -> bool) (tag : node) : bool :=
  match get tag "aria-label" with
  | Some v => Py.truthy (attr_text v) && p (attr_text v)
  | None => false
  end.

(** The three tests of heuristic 2 of [find_pagination_candidates] *)
Definition pagination_text_match (tag : node) : bool :=
  if string_and (fun s => Py.search_words_nocase next_prev_texts s
                          || Py.in_list (Py.strip s) next_prev_symbols) tag
  then true
  else if aria_label_and (Py.search_words_nocase next_prev_texts) tag
  then true
  else string_and (fun s => Py.isdigit (Py.strip s)) tag.

(** The candidate elements of [find_pagination_candidates] *)
Definition pagination_candidate_elements (soup : node) : list elem :=
  let all_selectors :=
    (pagination_keyword_selectors ++ structural_selectors
     ++ load_more_selectors)%list in
  let candidate_elements :=
    fold_left (fun s sel => set_add_all s (select soup sel)) all_selectors []
  in
  set_add_all candidate_elements
    (List.filter (fun e => pagination_text_match (e_tag e))
       (find_all soup ["a"; "button"])).

(** The test on a parent in the walk of [find_pagination_candidates] *)
Definition pagination_good_parent (parent : node) : bool :=
  existsb (fun keyword => Py.str_in keyword (Py.lower (class_text parent)))
    ["pagination"; "pager"]
  || existsb (fun keyword => Py.str_in keyword (Py.lower (get_str parent "id")))
       ["pagination"; "pager"]
  || String.eqb (get_str parent "role") "navigation".

(** The walk up the tree, [n] parents at most *)
Fixpoint pagination_container (soup : node) (n : nat) (container : elem)
  : elem :=
  match n with
  | O => container
  | S n' =>
      match find_parent soup container with
      | None => container
      | Some parent =>
          if pagination_good_parent (e_tag parent) then parent
          else pagination_container soup n' parent
      end
  end.

Definition pagination_candidate_containers (soup : node) : list elem :=
  fold_left (fun s element => set_add s (pagination_container soup 5 element))
    (pagination_candidate_elements soup) [].

(** [final_containers] of [find_pagination_candidates], from the containers
    in the order the set gives them *)
Definition pagination_final_containers (candidate_containers : list elem)
  : list elem :=
  drop_redundant (sorted_by_len candidate_containers).

Definition pagination_preserve_text_tags : list string :=
  ["a"; "button"; "span"; "option"; "label"].

(** [find_pagination_candidates]: the containers it keeps.  A set is
    iterated in insertion order here. *)
Definition find_pagination_containers (soup : node) (max_candidates : Z)
  : list elem :=
  slice_to (pagination_final_containers (pagination_candidate_containers soup))
    max_candidates.

(** [find_pagination_candidates], a snippet being the tree that is
    prettified *)
Definition find_pagination_candidates (soup : node) (max_candidates : Z)
  : list node :=
  map (snippet pagination_preserve_text_tags)
    (find_pagination_containers soup max_candidates).

Definition cookie_keyword_selectors : list selector :=
  [AttrContains "class" "cookie"; AttrContains "id" "cookie";
   AttrContains "class" "consent"; AttrContains "id" "consent";
   AttrContains "class" "banner"; AttrContains "id" "banner";
   AttrContains "class" "cmp"; AttrContains "id" "cmp";
   AttrContains "class" "dialog"; AttrContains "id" "dialog";
   AttrContains "aria-label" "cookie"; AttrContains "aria-label" "consent";
   AttrContains "aria-labelledby" "cookie";
   AttrContains "aria-describedby" "cookie";
   AttrContains "aria-labelledby" "consent";
   AttrContains "aria-describedby" "consent";
   AttrContains "id" "onetrust"; AttrContains "class" "onetrust";
   AttrContains "id" "cookiebot"; AttrContains "class" "cookiebot"].

Definition role_selectors : list selector :=
  [AttrEquals "role" "dialog"; AttrEquals "role" "alertdialog"].

(** The alternatives of the group of [accept_texts] *)
Definition accept_words : list string :=
  ["accept"; "agree"; "allow"; "ok"; "got it"; "i understand";
   "continue to site"; "ja"; "akzeptieren"; "zustimmen"; "einverstanden";
   "acepto"; "aceptar"].

(** [accept_texts.search(s)].  In the raw string of the source the pattern
    starts and ends with the four characters [\\b]: an escaped backslash,
    then the letter b. *)
Definition accept_texts_search (s : string) : bool :=
  existsb (fun w => Py.str_in ("\b" +:+ w +:+ "\b") (Py.lower s)) accept_words.

(** The two tests of heuristic 2 of [find_cookie_consent_candidates] *)
Definition cookie_text_match (tag : node) : bool :=
  if string_and accept_texts_search tag then true
  else aria_label_and accept_texts_search tag.

Definition cookie_candidate_elements (soup : node) : list elem :=
  let all_selectors := (cookie_keyword_selectors ++ role_selectors)%list in
  let candidate_elements :=
    fold_left (fun s sel => set_add_all s (select soup sel)) all_selectors []
  in
  set_add_all candidate_elements
    (List.filter (fun e => cookie_text_match (e_tag e))
       (find_all soup ["a"; "button"])).

Definition cookie_keywords : list string :=
  ["cookie"; "consent"; "banner"; "dialog"; "cmp"].

Definition cookie_good_parent (parent : node) : bool :=
  existsb (fun kw => Py.str_in kw (Py.lower (class_text parent)))
    cookie_keywords
  || existsb (fun kw => Py.str_in kw (Py.lower (get_str parent "id")))
       cookie_keywords
  || Py.in_list (Py.lower (get_str parent "role")) ["dialog"; "alertdialog"].

Fixpoint cookie_container (soup : node) (n : nat) (container : elem) : elem :=
  match n with
  | O => container
  | S n' =>
      match find_parent soup container with
      | None => container
      | Some parent =>
          if Py.in_list (name_of (e_tag parent)) ["body"; "html"]
          then container
          else if cookie_good_parent (e_tag parent) then parent
          else cookie_container soup n' parent
      end
  end.

Definition cookie_candidate_containers (soup : node) : list elem :=
  fold_left (fun s element => set_add s (cookie_container soup 5 element))
    (cookie_candidate_elements soup) [].

Definition cookie_final_containers (candidate_containers : list elem)
  : list elem :=
  drop_redundant (sorted_by_len_reverse candidate_containers).

Definition cookie_preserve_text_tags : list string :=
  ["a"; "button"; "span"; "p"; "h1"; "h2"; "h3"; "label"].

Definition find_cookie_consent_containers (soup : node) (max_candidates : Z)
  : list elem :=
  slice_to (cookie_final_containers (cookie_candidate_containers soup))
    max_candidates.

(** [find_cookie_consent_candidates], a snippet being the tree that is
    prettified *)
Definition find_cookie_consent_candidates (soup : node) (max_candidates : Z)
  : list node :=
  map (snippet cookie_preserve_text_tags)
    (find_cookie_consent_containers soup max_candidates).

(** [get_interactive_elements_html], up to [soup.prettify()] *)





Section Repository.

(** The two library checks [urllib.parse] relies on; see [Urllib]. *)
Variable is_ipv6_address : string -> bool.
Variable nfkc : string -> string.

Definition urlparse := Urllib.urlparse is_ipv6_address nfkc.
Definition urljoin := Urllib.urljoin is_ipv6_address nfkc.
Definition urldefrag := Urllib.urldefrag is_ipv6_address nfkc.

(** [normalize_url(url, base_url)] *)
Definition normalize_url (url : string) (base_url : option string)
  : option string :=
  resolved_url ←
    match base_url with
    | Some b => if Py.truthy b then urljoin b url else Some url
    | None => Some url
    end;
  '(defragged_url, _) ← urldefrag resolved_url;
  parsed_url ← urlparse defragged_url "";
  if Py.endswith (Urllib.path parsed_url) "/"
     && negb (String.eqb (Urllib.path parsed_url) "/")
  then Some (Py.drop_last defragged_url)
  else Some defragged_url.

(** A dictionary of the list [extract_links_with_text] returns *)
Record link_data := mkLinkData {
  url : string;
  associated_texts : list string;
  found_on_url : string }.

Definition ignored_patterns : list string :=
  ["javascript:"; "mailto:"; "tel:"; "whatsapp.com"; "twitter.com";
   "facebook.com"; "linkedin.com"; "instagram.com"].

(** The set [texts] that the loop of [extract_links_with_text] builds for
    one anchor *)
Definition anchor_texts (a : node) : gset string :=
  let text :=
    Py.join " " (List.filter Py.truthy (map Py.strip (stripped_strings a))) in
  let title := Py.strip (get_str a "title") in
  let texts : gset string := ∅ in
  let texts := if Py.truthy text then texts ∪ {[text]} else texts in
  let texts := if Py.truthy title then texts ∪ {[title]} else texts in
  if bool_decide (texts = ∅) then texts ∪ {[""]} else texts.

(** [href], unless the loop skips the anchor: no [href], an empty one, or
    one that holds an ignored pattern *)
Definition kept_href (a : node) : option string :=
  match get a "href" with
  | Some v =>
      let href := attr_text v in
      if negb (Py.truthy href)
         || existsb (fun pattern => Py.str_in pattern href) ignored_patterns
      then None else Some href
  | None => None
  end.

(** The first loop of [extract_links_with_text]: [links_and_text] *)
Fixpoint links_and_text (anchors : list elem) (base_url : string)
  : option (list (string * gset string)) :=
  match anchors with
  | [] => Some []
  | a :: anchors' =>
      match kept_href (e_tag a) with
      | None => links_and_text anchors' base_url
      | Some href =>
          normalized_link ← normalize_url href (Some base_url);
          rest ← links_and_text anchors' base_url;
          Some ((normalized_link, anchor_texts (e_tag a)) :: rest)
      end
  end.

(** [d[link].update(texts)] on a [defaultdict(set)], the keys in insertion
    order *)
Fixpoint dict_update (d : list (string * gset string)) (link : string)
  (texts : gset string) : list (string * gset string) :=
  match d with
  | [] => [(link, texts)]
  | (k, v) :: d' =>
      if String.eqb k link then (k, v ∪ texts) :: d'
      else (k, v) :: dict_update d' link texts
  end.

(** The body of the second loop *)
Definition add_link (d : list (string * gset string))
  (p : string * gset string) : list (string * gset string) :=
  let '(link, texts) := p in
  if Py.truthy link then dict_update d link texts else d.

(** The second loop: [link_to_texts] *)
Definition link_to_texts (l : list (string * gset string))
  : list (string * gset string) :=
  fold_left add_link l [].

(** [extract_links_with_text(html_content, base_url)], on the tree
    [BeautifulSoup(html_content, "html.parser")] *)
Definition extract_links_with_text (soup : node) (base_url : string)
  : option (list link_data) :=
  l ← links_and_text (find_all soup ["a"]) base_url;
  Some (map (fun '(link, texts) => mkLinkData link (elements texts) base_url)
          (link_to_texts l)).

(** ** crawlers/request_crawler.py: [AsyncDepthCrawler] *)

(** A value of [all_links] *)
Record link_record := mkLinkRecord {
  r_url : string;
  r_associated_texts : list string;
  found_on_urls : list string;
  depth_found : Z }.

(** The crawler object.  [fetched] and [extracted] are ghost fields: the
    calls of [get_content] and the pairs (link, depth) met by the
    aggregation loop, both in order of time. *)
Record crawler := mkCrawler {
  max_depth : Z;
  visited_urls : gset string;
  all_links : gmap string link_record;
  fetched : list string;
  extracted : list (string * Z) }.

(** [AsyncDepthCrawler(max_depth, request_handler)] *)
Definition new_crawler (max_depth : Z) : crawler :=
  mkCrawler max_depth ∅ ∅ [] [].

(** [is_same_domain] *)
Definition is_same_domain (url1 url2 : string) : bool :=
  match urlparse url1 "", urlparse url2 "" with
  | Some p1, Some p2 => String.eqb (Urllib.netloc p1) (Urllib.netloc p2)
  | _, _ => false
  end.

(** [process_url] up to [await self.request_handler.get_content(url)];
    [None] when it returns [[]] before that. *)
Definition process_url_start (c : crawler) (url base_domain : string)
  : option crawler :=
  if negb (is_same_domain url ("https://" +:+ base_domain)) then None
  else if bool_decide (url ∈ visited_urls c) then None
  else Some (mkCrawler (max_depth c) (visited_urls c ∪ {[url]}) (all_links c)
               (fetched c ++ [url])%list (extracted c)).

(** The body of the loop over [extracted_links] *)
Definition aggregate_link (current_depth : Z)
  (st : crawler * list string) (link : link_data) : crawler * list string :=
  let '(c, next_level_urls) := st in
  let link_url := url link in
  let links :=
    match all_links c !! link_url with
    | None =>
        <[link_url :=
            mkLinkRecord link_url (associated_texts link)
              [found_on_url link] current_depth]> (all_links c)
    | Some r =>
        if Py.in_list (found_on_url link) (found_on_urls r) then all_links c
        else
          <[link_url :=
              mkLinkRecord (r_url r) (r_associated_texts r)
                (found_on_urls r ++ [found_on_url link])%list
                (depth_found r)]> (all_links c)
    end in
  (mkCrawler (max_depth c) (visited_urls c) links (fetched c)
     (extracted c ++ [(link_url, current_depth)])%list,
   if (current_depth <? max_depth c - 1)%Z
      && negb (bool_decide (link_url ∈ visited_urls c))
   then (next_level_urls ++ [link_url])%list else next_level_urls).

(** [process_url] from the result of [get_content] on: [content] is the
    tree of a non-empty body, [None] for an empty body or a failed fetch. *)
Definition process_url_finish (c : crawler) (url : string)
  (current_depth : Z) (content : option node) : crawler * list string :=
  match content with
  | None => (c, [])
  | Some soup =>
      match extract_links_with_text soup url with
      | None => (c, [])
      | Some extracted_links =>
          fold_left (aggregate_link current_depth) extracted_links (c, [])
      end
  end.

(** A task of [asyncio.gather]: not started, suspended in [get_content], or
    finished with its result *)
Inductive task :=
| Pending (url : string)
| Fetching (url : string)
| Done (next_level_urls : list string).

(** What the event loop does next: run task [i] up to its [await], or
    resume it with the result of the fetch *)
Inductive event :=
| Start (i : nat)
| Receive (i : nat) (content : option node).

Definition step (current_depth : Z) (base_domain : string)
  (st : crawler * list task) (ev : event) : option (crawler * list task) :=
  let '(c, tasks) := st in
  match ev with
  | Start i =>
      match tasks !! i with
      | Some (Pending url) =>
          match process_url_start c url base_domain with
          | None => Some (c, <[i := Done []]> tasks)
          | Some c' => Some (c', <[i := Fetching url]> tasks)
          end
      | _ => None
      end
  | Receive i content =>
      match tasks !! i with
      | Some (Fetching url) =>
          let '(c', next_level_urls) :=
            process_url_finish c url current_depth content in
          Some (c', <[i := Done next_level_urls]> tasks)
      | _ => None
      end
  end.

Fixpoint run (current_depth : Z) (base_domain : string)
  (st : crawler * list task) (events : list event)
  : option (crawler * list task) :=
  match events with
  | [] => Some st
  | ev :: events' =>
      st' ← step current_depth base_domain st ev;
      run current_depth base_domain st' events'
  end.

(** The results of the tasks, once all have finished *)
Fixpoint results (tasks : list task) : option (list (list string)) :=
  match tasks with
  | [] => Some []
  | Done r :: tasks' => rs ← results tasks'; Some (r :: rs)
  | _ :: _ => None
  end.

(** The loop that removes duplicates and keeps the order *)
Fixpoint unique_next_urls (seen : gset string) (next_level_urls : list string)
  : list string :=
  match next_level_urls with
  | [] => []
  | u :: l =>
      if bool_decide (u ∈ seen) then unique_next_urls seen l
      else u :: unique_next_urls (seen ∪ {[u]}) l
  end.

(** [crawl_depth_level], the [events] being what happens under [gather];
    [None] when they do not finish every task. *)
Definition crawl_depth_level (c : crawler) (events : list event)
  (urls : list string) (depth : Z) (base_domain : string)
  : option (crawler * list string) :=
  if bool_decide (urls = []) || (max_depth c <=? depth)%Z then Some (c, [])
  else
    '(c', tasks) ← run depth base_domain (c, map Pending urls) events;
    rs ← results tasks;
    Some (c', unique_next_urls ∅ (concat rs)).

(** The loop of [crawl]; one list of events for each level it runs *)
Fixpoint crawl_loop (schedule : list (list event)) (c : crawler)
  (base_domain : string) (current_urls : list string) (current_depth : Z)
  : option crawler :=
  if negb (bool_decide (current_urls = [])) && (current_depth <? max_depth c)%Z
  then
    match schedule with
    | [] => None
    | events :: schedule' =>
        '(c', next) ←
          crawl_depth_level c events current_urls current_depth base_domain;
        crawl_loop schedule' c' base_domain next (current_depth + 1)
    end
  else Some c.

(** [AsyncDepthCrawler(max_depth).crawl(start_url)]: the crawler when
    [crawl] returns, its [all_links] being the result.  [None] when
    [urlparse] raises or the schedule does not describe a whole run. *)
Definition crawl (schedule : list (list event)) (max_depth : Z)
  (start_url : string) : option crawler :=
  p ← urlparse start_url "";
  crawl_loop schedule (new_crawler max_depth) (Urllib.netloc p) [start_url] 0.

End Repository.

(** ** crawlers/request_crawler.py: [AsyncWebRequestHandler] *)

Module Handler.

(** The handler object.  [semaphore] is the number of free slots, [clock]
    what [time.time()] returns now; [dispatched] is a ghost field: the times
    at which [self.session.get] was called, in order. *)
Record handler := mkHandler {
  delay : Z;
  last_request_time : Z;
  semaphore : Z;
  clock : Z;
  dispatched : list Z }.

(** [AsyncWebRequestHandler(delay, max_concurrent)] at time [now] *)
Definition new_handler (delay max_concurrent now : Z) : handler :=
  mkHandler delay 0 max_concurrent now [].

(** A call of [get_content]: waiting for the semaphore, in
    [asyncio.sleep] until a time, waiting for the response, returned *)
Inductive call :=
| Queued
| Sleeping (until : Z)
| InFlight
| Returned.

Inductive event :=
| Acquire (i : nat)   (* call [i] enters [async with self.semaphore] *)
| Wake (i : nat)      (* [asyncio.sleep] of call [i] returns *)
| Respond (i : nat)   (* the request of call [i] ends, the slot is freed *)
| Tick (dt : Z).      (* time passes *)

(** [self.last_request_time = time.time()] and the request that follows *)
Definition dispatch (h : handler) : handler :=
  mkHandler (delay h) (clock h) (semaphore h) (clock h)
    (dispatched h ++ [clock h]).

Definition take_slot (h : handler) : handler :=
  mkHandler (delay h) (last_request_time h) (semaphore h - 1) (clock h)
    (dispatched h).

Definition free_slot (h : handler) : handler :=
  mkHandler (delay h) (last_request_time h) (semaphore h + 1) (clock h)
    (dispatched h).

Definition step (st : handler * list call) (ev : event)
  : option (handler * list call) :=
  let '(h, calls) := st in
  match ev with
  | Acquire i =>
      match calls !! i with
      | Some Queued =>
          if (0 <? semaphore h)%Z then
            let h := take_slot h in
            let current_time := clock h in
            let time_since_last := (current_time - last_request_time h)%Z in
            if (time_since_last <? delay h)%Z
            then Some (h, <[i := Sleeping
                                   (clock h + (delay h - time_since_last))]>
                            calls)
            else Some (dispatch h, <[i := InFlight]> calls)
          else None
      | _ => None
      end
  | Wake i =>
      match calls !! i with
      | Some (Sleeping until) =>
          if (until <=? clock h)%Z
          then Some (dispatch h, <[i := InFlight]> calls)
          else None
      | _ => None
      end
  | Respond i =>
      match calls !! i with
      | Some InFlight => Some (free_slot h, <[i := Returned]> calls)
      | _ => None
      end
  | Tick dt =>
      if (0 <=? dt)%Z
      then Some (mkHandler (delay h) (last_request_time h) (semaphore h)
                   (clock h + dt) (dispatched h), calls)
      else None
  end.

Fixpoint run (st : handler * list call) (events : list event)
  : option (handler * list call) :=
  match events with
  | [] => Some st
  | ev :: events' => st' ← step st ev; run st' events'
  end.


(** Each time of [l] is at least [d] after the one before it. *)
Fixpoint spaced (d : Z) (l : list Z) : Prop :=
  match l with
  | t1 :: (t2 :: _) as l' => (t1 + d <= t2)%Z /\ spaced d l'
  | _ => True
  end.

(** A call that holds a slot *)
Definition active (c : call) : bool :=
  match c with Sleeping _ | InFlight => true | _ => false end.

(** What holds of a handler with one slot: at most one call holds the slot,
    the requests so far are spaced, [last_request_time] is the time of the
    last of them, and a sleeping call wakes [delay] after it or later. *)
Definition one_slot_invariant (st : handler * list call) : Prop :=
  let '(h, calls) := st in
  (semaphore h = 1 ∨ semaphore h = 0)%Z
  ∧ (semaphore h = 1%Z → ∀ i c, calls !! i = Some c → active c = false)
  ∧ (∀ i j ci cj, calls !! i = Some ci → calls !! j = Some cj →
       active ci = true → active cj = true → i = j)
  ∧ spaced (delay h) (dispatched h)
  ∧ (∀ t, last (dispatched h) = Some t →
       last_request_time h = t ∧ (t ≤ clock h)%Z)
  ∧ (∀ i w, calls !! i = Some (Sleeping w) →
       (last_request_time h + delay h ≤ w)%Z).


(** The number of calls that hold a slot *)
Definition holding (calls : list call) : nat :=
  length (List.filter active calls).

(** The slots taken and the slots free add up to [total]. *)
Definition slots_invariant (total : Z) (st : handler * list call) : Prop :=
  (0 <= semaphore st.1)%Z
  /\ (semaphore st.1 + Z.of_nat (holding st.2) = total)%Z.

End Handler.

(** ** utils/miscellaneous.py *)

Definition newline : string := String (ascii_of_nat 10) EmptyString.

(** The text [truncate_string] appends *)
Definition truncated_note : string :=
  "..." +:+ newline +:+ "[TRUNCATED DUE TO LENGTH RESTRICTIONS]".

(** [truncate_string(string, max_chars)] *)
Definition truncate_string (s : string) (max_chars : Z) : string :=
  if (Z.of_nat (Py.len s) <=? max_chars)%Z then s
  else Py.slice_to s max_chars +:+ truncated_note.

(** ** Predicates of the properties *)

(** Every URL handed to [get_content] is in [visited_urls], and none was
    handed to it twice. *)
Definition fetch_invariant (c : crawler) : Prop :=
  NoDup (fetched c) ∧ ∀ u, u ∈ fetched c → u ∈ visited_urls c.

(** The depth at which the aggregation loop met [u] for the first time *)
Definition first_depth (u : string) (log : list (string * Z)) : option Z :=
  snd <$> List.find (fun p => String.eqb (fst p) u) log.

(** The records are those of the links met so far, each with the depth of
    its first meeting. *)
Definition registry_ok (c : crawler) : Prop :=
  ∀ u, depth_found <$> (all_links c !! u) = first_depth u (extracted c).

(** A record of [m] is in [m'] with the same url, texts and depth, its
    [found_on_urls] extended at the end. *)
Definition registry_le (m m' : gmap string link_record) : Prop :=
  ∀ u r, m !! u = Some r →
    ∃ r', m' !! u = Some r' ∧ depth_found r' = depth_found r
          ∧ r_url r' = r_url r
          ∧ r_associated_texts r' = r_associated_texts r
          ∧ found_on_urls r `prefix_of` found_on_urls r'.

(** The record of the link holds the page and every text of the link. *)
Definition page_and_texts_merged (c : crawler) (link : link_data) : Prop :=
  ∃ r, all_links c !! url link = Some r
       ∧ found_on_url link ∈ found_on_urls r
       ∧ ∀ t, t ∈ associated_texts link → t ∈ r_associated_texts r.

(** What [extract_links_with_text] promises of its records *)
Definition well_formed_links (base_url : string) (l : list link_data) : Prop :=
  Forall (fun r => url r ≠ "" ∧ associated_texts r ≠ []
                   ∧ found_on_url r = base_url) l
  ∧ NoDup (map url l).

(** The registry of a crawl seen from one of its states [c0] *)
Definition registry_grows_from (c0 c : crawler) : Prop :=
  registry_ok c ∧ registry_le (all_links c0) (all_links c).

(** The dictionary [link_to_texts]: distinct keys, none empty, no empty
    set *)
Definition dict_ok (d : list (string * gset string)) : Prop :=
  NoDup d.*1 ∧ Forall (fun p => p.1 ≠ "" ∧ p.2 ≠ ∅) d.

(** Every anchor the loop keeps, when its link is not empty, has this link as
    the [url] of a record that holds all its texts. *)
Definition links_complete (is_ipv6_address : string -> bool)
  (nfkc : string -> string) (soup : node) (base_url : string)
  (records : list link_data) : Prop :=
  ∀ a href link,
    a ∈ find_all soup ["a"] →
    kept_href (e_tag a) = Some href →
    normalize_url is_ipv6_address nfkc href (Some base_url) = Some link →
    link ≠ "" →
    ∃ r, r ∈ records ∧ url r = link
         ∧ ∀ t, t ∈ anchor_texts (e_tag a) → t ∈ associated_texts r.

(** Every URL handed to [get_content] passed [is_same_domain] against the
    domain of the crawl. *)
Definition fetched_in_domain (is_ipv6_address : string -> bool)
  (nfkc : string -> string) (base_domain : string) (c : crawler) : Prop :=
  ∀ u, u ∈ fetched c →
    is_same_domain is_ipv6_address nfkc u ("https://" +:+ base_domain) = true.

(** [visited_urls] holds the URLs handed to [get_content], and no other. *)
Definition visited_are_fetched (c : crawler) : Prop :=
  ∀ u, u ∈ visited_urls c ↔ u ∈ fetched c.

(** Each record is filed under its own url, lists at least one page, lists
    no page twice, and has a depth of a level that [max_depth] allows. *)
Definition records_well_formed (c : crawler) : Prop :=
  ∀ u r, all_links c !! u = Some r →
    r_url r = u ∧ found_on_urls r ≠ [] ∧ NoDup (found_on_urls r)
    ∧ (0 ≤ depth_found r < max_depth c)%Z.

(** Every page a record lists was handed to [get_content]. *)
Definition sources_fetched (c : crawler) : Prop :=
  ∀ u r p, all_links c !! u = Some r → p ∈ found_on_urls r → p ∈ fetched c.

(** Every URL handed to [get_content] is the start URL or a key of
    [all_links]. *)
Definition fetched_registered (start_url : string) (c : crawler) : Prop :=
  ∀ u, u ∈ fetched c → u = start_url ∨ is_Some (all_links c !! u).

(** What [crawl] may hand to a level: the start URL and the keys of
    [all_links]. *)
Definition registered (start_url : string) (c : crawler) (u : string) : Prop :=
  u = start_url ∨ is_Some (all_links c !! u).

(** What holds of the crawler and of the tasks of a level at every moment *)
Definition level_invariant (start_url : string)
  (st : crawler * list task) : Prop :=
  sources_fetched st.1 ∧ fetched_registered start_url st.1
  ∧ ∀ i t, st.2 !! i = Some t →
      match t with
      | Pending url => registered start_url st.1 url
      | Fetching url => url ∈ fetched st.1
      | Done next_level_urls =>
          ∀ u, u ∈ next_level_urls → is_Some (all_links st.1 !! u)
      end.

(** Every text of every record was read off an anchor of the page that the
    loop keeps and whose normalised link is the record's url. *)
Definition links_sound (is_ipv6_address : string -> bool)
  (nfkc : string -> string) (soup : node) (base_url : string)
  (records : list link_data) : Prop :=
  ∀ r t, r ∈ records → t ∈ associated_texts r →
    ∃ a href,
      a ∈ find_all soup ["a"]
      ∧ kept_href (e_tag a) = Some href
      ∧ normalize_url is_ipv6_address nfkc href (Some base_url) = Some (url r)
      ∧ t ∈ anchor_texts (e_tag a).

(** The loop of [descendants] over the children, from the index [i] on *)
Definition children_descendants : nat → list node → list elem :=
  fix go (i : nat) (cs : list node) : list elem :=
    match cs with
    | [] => []
    | c :: cs' =>
        ((if is_tag c then [mkElem [i] c] else []) ++
         map (fun e => mkElem (i :: e_path e) (e_tag e)) (descendants c)
         ++ go (S i) cs')%list
    end.

(** [e] is the tag of [soup] at the place it says. *)
Definition element_of (soup : node) (e : elem) : Prop :=
  node_at soup (e_path e) = Some (e_tag e).

(** [c] is [e] or one of its [n] nearest ancestors. *)
Definition within_parents (n : nat) (e c : elem) : Prop :=
  e_path c `prefix_of` e_path e
  ∧ (length (e_path e) ≤ length (e_path c) + n)%nat.


(** ** Inputs of the examples *)

Module Ex.

(** No host in brackets is taken for an IPv6 address; NFKC changes nothing.
    The URLs below have neither brackets nor non-ASCII characters. *)
Definition no_ipv6 (_ : string) : bool := false.
Definition nfkc_ascii (s : string) : string := s.

Definition anchor (href text : string) : node :=
  Tag "a" [("href", AttrStr href)] [Text text].

Definition seed : string := "https://example.com/".

Definition page_seed : node :=
  document
    [Tag "html" []
       [Tag "body" []
          [anchor "/a" "A"; anchor "/a/" " A again ";
           anchor "https://other.com/b" "B"; anchor "/" "Home";
           anchor "#" "top"; anchor "mailto:x@example.com" "mail"]]].

Definition page_a : node :=
  document [anchor "/" "Start"; anchor "/a" "self"; anchor "/c" "C"].

(** Level 0 fetches the seed; level 1 starts both tasks, then the page of
    [/a] arrives. *)
Definition schedule : list (list event) :=
  [[Start 0; Receive 0 (Some page_seed)];
   [Start 0; Start 1; Receive 0 (Some page_a)]].

(** The crawler at the end of the crawl of depth 2 from the seed under
    this schedule, and the records of the page of the seed *)
Definition final : crawler :=
  Eval vm_compute in
    default (new_crawler 2) (crawl no_ipv6 nfkc_ascii schedule 2 seed).

Definition seed_links : list link_data :=
  Eval vm_compute in
    default [] (extract_links_with_text no_ipv6 nfkc_ascii page_seed seed).

(** A registry that knows [/a] from the seed, and the same link found on
    another page under another text *)
Definition known : crawler :=
  mkCrawler 3 {[seed]}
    {["https://example.com/a" :=
        mkLinkRecord "https://example.com/a" ["Home"] [seed] 0]}
    [seed] [("https://example.com/a", 0%Z)].

Definition rediscovered : link_data :=
  mkLinkData "https://example.com/a" ["Start"] "https://example.com/b".

(** [<button>Accept all</button>] and [<a href="/ok">Agree</a>] *)
Definition accept_all_page : node :=
  document [Tag "button" [] [Text "Accept all"]].
Definition agree_page : node :=
  document [Tag "a" [("href", AttrStr "/ok")] [Text "Agree"]].

Definition pagination_nav (links : list node) : node :=
  Tag "nav" [("class", AttrList ["pagination"])] links.

(** The input of the scenario of the pagination detector *)
Definition scenario_page : node :=
  document
    [pagination_nav [anchor "#" "1"; anchor "#" "2"; anchor "#" "Next »"]].

(** [<div><div><div><div><div><nav class="pagination"><a href="#">1</a>
    </nav></div></div></div></div></div>] *)
Definition nested_page : node :=
  document
    [Tag "div" []
       [Tag "div" []
          [Tag "div" []
             [Tag "div" []
                [Tag "div" [] [pagination_nav [anchor "#" "1"]]]]]]].

(** Three calls of [get_content] on a handler with a delay of 1000 ticks
    and two slots, made at time 5000: the first request takes 200 ticks, the
    two others start when it has ended. *)
Definition three_calls : list Handler.event :=
  [Handler.Acquire 0; Handler.Tick 200; Handler.Respond 0;
   Handler.Acquire 1; Handler.Acquire 2; Handler.Tick 800;
   Handler.Wake 1; Handler.Wake 2].

(** Two calls on a handler with one slot, and three on one with two *)
Definition two_calls : list Handler.event :=
  [Handler.Acquire 0; Handler.Tick 200; Handler.Respond 0;
   Handler.Acquire 1; Handler.Tick 800; Handler.Wake 1].

Definition after_two_calls : Handler.handler * list Handler.call :=
  Eval vm_compute in
    default (Handler.new_handler 1000 1 5000, [])
      (Handler.run
         (Handler.new_handler 1000 1 5000, [Handler.Queued; Handler.Queued])
         two_calls).

Definition after_three_calls : Handler.handler * list Handler.call :=
  Eval vm_compute in
    default (Handler.new_handler 1000 2 5000, [])
      (Handler.run
         (Handler.new_handler 1000 2 5000,
          [Handler.Queued; Handler.Queued; Handler.Queued])
         three_calls).

(** The record of [/a] at the end of the crawl *)
Definition record_a : link_record :=
  Eval vm_compute in
    default (mkLinkRecord "" [] [] 0)
      (all_links final !! "https://example.com/a").

(** The two containers the pagination detector keeps on [nested_page] *)
Definition nested_nav : elem :=
  mkElem [0; 0; 0; 0; 0; 0]%nat (pagination_nav [anchor "#" "1"]).

(** A page whose cookie notice is a [span] in a [div] of the body, and the
    [div] *)
Definition cookie_notice : node :=
  Tag "div" []
    [Tag "span" [("class", AttrList ["cookie"])] [Text "We use cookies."]].

Definition cookie_page : node :=
  document [Tag "html" [] [Tag "body" [] [cookie_notice]]].

Definition cookie_div : elem := mkElem [0; 0; 0]%nat cookie_notice.



End Ex.

(** ** Properties *)

Section Properties.

Variable is_ipv6_address : string -> bool.
Variable nfkc : string -> string.

Local Abbreviation normalize_url := (normalize_url is_ipv6_address nfkc).
Local Abbreviation extract_links_with_text :=
  (extract_links_with_text is_ipv6_address nfkc).
Local Abbreviation process_url_start := (process_url_start is_ipv6_address nfkc).
Local Abbreviation process_url_finish := (process_url_finish is_ipv6_address nfkc).
Local Abbreviation step := (step is_ipv6_address nfkc).
Local Abbreviation run := (run is_ipv6_address nfkc).
Local Abbreviation crawl_depth_level := (crawl_depth_level is_ipv6_address nfkc).
Local Abbreviation crawl_loop := (crawl_loop is_ipv6_address nfkc).
Local Abbreviation crawl := (crawl is_ipv6_address nfkc).

(** *** The URL normaliser *)

(** C1. [normalize_url] is not idempotent on a URL with a query: the path of
    [https://example.com/docs/?page=12] ends with a slash, the last
    character of the whole URL is dropped, and a second call drops one
    more. *)
Theorem normalize_url_twice_differs :
  normalize_url "https://example.com/docs/?page=12" None
    = Some "https://example.com/docs/?page=1"
  ∧ normalize_url "https://example.com/docs/?page=1" None
    = Some "https://example.com/docs/?page="
  ∧ "https://example.com/docs/?page=1" ≠ "https://example.com/docs/?page=".
Proof. split; [reflexivity | split; [reflexivity | discriminate]]. Qed.

(** C2. On [docs/?page=12] resolved against [https://example.com/] the
    path ends with a slash and is not the root, yet the result keeps the
    slash of the path and has lost the last character of the query. *)
Theorem normalize_url_cuts_the_query :
  urljoin is_ipv6_address nfkc "https://example.com/" "docs/?page=12"
    = Some "https://example.com/docs/?page=12"
  ∧ normalize_url "docs/?page=12" (Some "https://example.com/")
    = Some "https://example.com/docs/?page=1"
  ∧ (Urllib.path <$> urlparse is_ipv6_address nfkc
                       "https://example.com/docs/?page=1" "")
    = Some "/docs/"
  ∧ (Urllib.query <$> urlparse is_ipv6_address nfkc
                        "https://example.com/docs/?page=1" "")
    = Some "page=1".
Proof. repeat split; reflexivity. Qed.


(** *** The depth crawler: what every step of a crawl preserves *)

Lemma aggregate_link_fields d c next link :
  let c' := fst (aggregate_link d (c, next) link) in
  max_depth c' = max_depth c ∧ visited_urls c' = visited_urls c
  ∧ fetched c' = fetched c.
Proof. done. Qed.

Section InvariantRule.

(** A property of the crawler that the two writers keep: the start of
    [process_url] and one turn of the aggregation loop. *)
Variable P : crawler -> Prop.
Hypothesis P_start : ∀ c url base_domain c',
  process_url_start c url base_domain = Some c' → P c → P c'.
Hypothesis P_link : ∀ d c next link,
  P c → P (fst (aggregate_link d (c, next) link)).

Lemma P_links d links : ∀ c next,
  P c → P (fst (fold_left (aggregate_link d) links (c, next))).
Proof.
  induction links as [|link links IH]; intros c next Hc; [done|].
  change (P (fst (fold_left (aggregate_link d) links
                    (aggregate_link d (c, next) link)))).
  pose proof (P_link d c next link Hc) as H.
  destruct (aggregate_link d (c, next) link) as [c1 next1]. by apply IH.
Qed.

Lemma P_finish c url d content :
  P c → P (fst (process_url_finish c url d content)).
Proof.
  intros Hc. unfold process_url_finish.
  destruct content as [soup|]; [|done].
  destruct (extract_links_with_text soup url); [|done].
  by apply P_links.
Qed.

Lemma P_step d base_domain c tasks ev c' tasks' :
  step d base_domain (c, tasks) ev = Some (c', tasks') → P c → P c'.
Proof.
  unfold step. destruct ev as [i|i content].
  - destruct (tasks !! i) as [[url| |]|]; try done.
    destruct (process_url_start c url base_domain) as [c1|] eqn:E.
    + intros [= <- _] Hc. by eapply P_start.
    + by intros [= <- _].
  - destruct (tasks !! i) as [[|url|]|]; try done.
    intros Hstep Hc. pose proof (P_finish c url d content Hc) as H.
    destruct (process_url_finish c url d content) as [c1 next].
    by injection Hstep as <- _.
Qed.

Lemma P_run d base_domain events : ∀ c tasks c' tasks',
  run d base_domain (c, tasks) events = Some (c', tasks') → P c → P c'.
Proof.
  induction events as [|ev events IH]; intros c tasks c' tasks' Hrun Hc.
  - by injection Hrun as <- _.
  - change (step d base_domain (c, tasks) ev
              ≫= (fun st' => run d base_domain st' events)
            = Some (c', tasks')) in Hrun.
    destruct (step d base_domain (c, tasks) ev) as [[c1 tasks1]|] eqn:E;
      simpl in Hrun; [|discriminate].
    eapply IH; [exact Hrun|]. by eapply P_step.
Qed.

Lemma P_level c events urls d base_domain c' next :
  crawl_depth_level c events urls d base_domain = Some (c', next) →
  P c → P c'.
Proof.
  unfold crawl_depth_level. intros Hlevel Hc.
  destruct (bool_decide (urls = []) || (max_depth c <=? d)%Z).
  - by injection Hlevel as <- _.
  - destruct (run d base_domain (c, map Pending urls) events)
      as [[c1 tasks]|] eqn:E; simpl in Hlevel; [|discriminate].
    destruct (results tasks); simpl in Hlevel; [|discriminate].
    injection Hlevel as <- _. by eapply P_run.
Qed.

Lemma P_loop schedule : ∀ c base_domain urls d c',
  crawl_loop schedule c base_domain urls d = Some c' → P c → P c'.
Proof.
  induction schedule as [|events schedule IH];
    intros c bd urls d c' Hloop Hc; cbn [crawl_loop] in Hloop.
  - destruct (_ && _); [discriminate|]. by injection Hloop as <-.
  - destruct (_ && _); [|by injection Hloop as <-].
    destruct (crawl_depth_level c events urls d bd) as [[c1 next]|] eqn:E;
      simpl in Hloop; [|discriminate].
    eapply IH; [exact Hloop|]. by eapply P_level.
Qed.

End InvariantRule.

(** *** C3: a URL is fetched once *)

Lemma fetch_invariant_start c url base_domain c' :
  process_url_start c url base_domain = Some c' →
  fetch_invariant c → fetch_invariant c'.
Proof.
  unfold process_url_start.
  destruct (negb _); [done|]. case_bool_decide as Hv; [done|].
  intros [= <-] [Hnd Hsub]. split; simpl.
  - apply NoDup_app. split; [done|]. split; [|apply NoDup_singleton].
    intros u Hu ->%list_elem_of_singleton. by apply Hv, Hsub.
  - intros u [Hu | ->%list_elem_of_singleton]%elem_of_app; [|set_solver].
    apply Hsub in Hu. set_solver.
Qed.

Lemma fetch_invariant_link d c next link :
  fetch_invariant c → fetch_invariant (fst (aggregate_link d (c, next) link)).
Proof. by intros [Hnd Hsub]. Qed.

Lemma fetch_invariant_new max_depth : fetch_invariant (new_crawler max_depth).
Proof. split; [apply NoDup_nil_2 | by intros u Hu%elem_of_nil]. Qed.

(** C3. Whatever the order in which the tasks of a level run and whatever
    the pages hold, when [crawl] returns no URL has been handed to
    [get_content] twice. *)
Theorem each_url_fetched_at_most_once schedule max_depth start_url c :
  crawl schedule max_depth start_url = Some c → NoDup (fetched c).
Proof.
  unfold crawl.
  destruct (urlparse is_ipv6_address nfkc start_url "") as [p|]; [|done].
  simpl. intros Hloop.
  apply (P_loop fetch_invariant fetch_invariant_start fetch_invariant_link
           _ _ _ _ _ _ Hloop (fetch_invariant_new max_depth)).
Qed.

(** *** C6: [max_depth = 0] *)

(** C6. With [max_depth = 0] the loop of [crawl] is not entered: nothing is
    fetched, the seed neither, and the registry returned is empty. *)
Theorem crawl_max_depth_zero schedule :
  crawl schedule 0 Ex.seed = Some (new_crawler 0)
  ∧ fetched (new_crawler 0) = []
  ∧ all_links (new_crawler 0) = ∅.
Proof. by destruct schedule. Qed.

(** *** C4 and C7: the records of the registry *)

Lemma first_depth_app u log k d :
  first_depth u (log ++ [(k, d)])%list =
  match first_depth u log with
  | Some x => Some x
  | None => if String.eqb k u then Some d else None
  end.
Proof.
  unfold first_depth. induction log as [|[k' d'] log IH]; simpl.
  - by destruct (String.eqb k u).
  - by destruct (String.eqb k' u).
Qed.

#[local] Instance registry_le_preorder : PreOrder registry_le.
Proof.
  split.
  - intros m u r Hr. exists r. by repeat split.
  - intros m1 m2 m3 H12 H23 u r Hr.
    destruct (H12 u r Hr) as (r2 & Hr2 & Hd2 & Hu2 & Ht2 & Hf2).
    destruct (H23 u r2 Hr2) as (r3 & Hr3 & Hd3 & Hu3 & Ht3 & Hf3).
    exists r3. repeat split; try congruence. by etrans.
Qed.

(** One turn of the aggregation loop on a link that has a record: the page
    is appended to [found_on_urls] unless it is there, nothing else of the
    record changes. *)
Lemma aggregate_link_known d c next link r :
  all_links c !! url link = Some r →
  all_links (fst (aggregate_link d (c, next) link)) !! url link =
  Some (mkLinkRecord (r_url r) (r_associated_texts r)
          (if Py.in_list (found_on_url link) (found_on_urls r)
           then found_on_urls r
           else (found_on_urls r ++ [found_on_url link])%list)
          (depth_found r)).
Proof.
  intros Hr. simpl. rewrite Hr.
  destruct (Py.in_list (found_on_url link) (found_on_urls r)).
  - rewrite Hr. by destruct r.
  - by rewrite lookup_insert_eq.
Qed.

(** One turn on a link that has no record: the record is created with the
    depth of the level. *)
Lemma aggregate_link_new d c next link :
  all_links c !! url link = None →
  all_links (fst (aggregate_link d (c, next) link)) !! url link =
  Some (mkLinkRecord (url link) (associated_texts link) [found_on_url link] d).
Proof. intros Hr. simpl. rewrite Hr. by rewrite lookup_insert_eq. Qed.

Lemma aggregate_link_other d c next link u :
  u ≠ url link →
  all_links (fst (aggregate_link d (c, next) link)) !! u = all_links c !! u.
Proof.
  intros Hu. simpl. destruct (all_links c !! url link) as [r|].
  - destruct (Py.in_list _ _); [done|]. by rewrite lookup_insert_ne.
  - by rewrite lookup_insert_ne.
Qed.

Lemma aggregate_link_extracted d c next link :
  extracted (fst (aggregate_link d (c, next) link)) =
  (extracted c ++ [(url link, d)])%list.
Proof. done. Qed.

Lemma registry_le_link d c next link :
  registry_le (all_links c) (all_links (fst (aggregate_link d (c, next) link))).
Proof.
  intros u r Hr. destruct (decide (u = url link)) as [->|Hu].
  - rewrite (aggregate_link_known _ _ _ _ _ Hr). eexists. split; [done|].
    simpl. repeat split. destruct (Py.in_list _ _); [done|].
    by apply prefix_app_r.
  - rewrite aggregate_link_other by done. exists r. by repeat split.
Qed.

Lemma registry_ok_link d c next link :
  registry_ok c → registry_ok (fst (aggregate_link d (c, next) link)).
Proof.
  intros Hok u. rewrite aggregate_link_extracted, first_depth_app, <- Hok.
  destruct (decide (u = url link)) as [->|Hu].
  - destruct (all_links c !! url link) as [r|] eqn:Hr.
    + by rewrite (aggregate_link_known _ _ _ _ _ Hr).
    + rewrite (aggregate_link_new _ _ _ _ Hr). simpl.
      by rewrite String.eqb_refl.
  - rewrite aggregate_link_other by done.
    destruct (all_links c !! u); [done|]. simpl.
    by apply not_eq_sym, String.eqb_neq in Hu as ->.
Qed.

Lemma registry_grows_start c0 c url base_domain c' :
  process_url_start c url base_domain = Some c' →
  registry_grows_from c0 c → registry_grows_from c0 c'.
Proof.
  unfold process_url_start.
  destruct (negb _); [done|]. case_bool_decide; [done|]. by intros [= <-].
Qed.

Lemma registry_grows_link c0 d c next link :
  registry_grows_from c0 c →
  registry_grows_from c0 (fst (aggregate_link d (c, next) link)).
Proof.
  intros [Hok Hle]. split; [by apply registry_ok_link|].
  etrans; [exact Hle | apply registry_le_link].
Qed.

(** C4. From any state of a crawl to its end: the [depth_found] of every
    record is the depth of the level at which its URL was first met by the
    aggregation loop, and a record that exists keeps its [depth_found], its
    url and its texts, while [found_on_urls] is only extended at the end. *)
Theorem depth_found_assigned_once schedule c base_domain urls d c' :
  crawl_loop schedule c base_domain urls d = Some c' →
  registry_ok c →
  registry_ok c' ∧ registry_le (all_links c) (all_links c').
Proof.
  intros Hloop Hok.
  apply (P_loop (registry_grows_from c) (registry_grows_start c)
           (registry_grows_link c) _ _ _ _ _ _ Hloop).
  by split.
Qed.

(** C7, as amended.  When the link has a record, the page is appended to
    [found_on_urls] if it is not there; the texts of the record stay those
    of the first discovery, as do its url and its depth. *)
Theorem existing_record_gets_the_page_only d c next link r :
  all_links c !! url link = Some r →
  ∃ r', all_links (fst (aggregate_link d (c, next) link)) !! url link = Some r'
        ∧ found_on_url link ∈ found_on_urls r'
        ∧ found_on_urls r' =
            (if Py.in_list (found_on_url link) (found_on_urls r)
             then found_on_urls r
             else (found_on_urls r ++ [found_on_url link])%list)
        ∧ r_associated_texts r' = r_associated_texts r
        ∧ r_url r' = r_url r ∧ depth_found r' = depth_found r.
Proof.
  intros Hr. eexists. split; [by apply aggregate_link_known|].
  simpl. repeat split.
  destruct (Py.in_list _ _) eqn:Hin.
  - apply existsb_exists in Hin as (x & Hx & ->%String.eqb_eq).
    by apply list_elem_of_In.
  - apply elem_of_app. right. by apply list_elem_of_singleton.
Qed.

(** *** C10: the records of [extract_links_with_text] *)

Lemma truthy_nonempty s : Py.truthy s = true ↔ s ≠ "".
Proof. by destruct s. Qed.

Lemma anchor_texts_nonempty a : anchor_texts a ≠ ∅.
Proof. unfold anchor_texts. case_bool_decide; set_solver. Qed.

Lemma links_and_text_nonempty anchors base_url : ∀ l,
  links_and_text is_ipv6_address nfkc anchors base_url = Some l →
  Forall (fun p => p.2 ≠ ∅) l.
Proof.
  induction anchors as [|a anchors IH]; intros l; simpl.
  - intros [= <-]. constructor.
  - destruct (kept_href (e_tag a)) as [href|]; [|by apply IH].
    destruct (normalize_url _ _) as [link|]; [|done]. simpl.
    destruct (links_and_text _ _ anchors base_url) as [rest|]; [|done].
    simpl. intros [= <-]. constructor; [apply anchor_texts_nonempty|].
    by apply IH.
Qed.

Lemma dict_update_keys d link texts :
  (dict_update d link texts).*1 =
  if bool_decide (link ∈ d.*1) then d.*1 else (d.*1 ++ [link])%list.
Proof.
  induction d as [|[k v] d IH]; [done|].
  cbn [dict_update]. destruct (String.eqb_spec k link) as [->|Hk].
  - rewrite !fmap_cons. cbn [fst].
    rewrite bool_decide_eq_true_2; [done|]. apply list_elem_of_here.
  - rewrite !fmap_cons, IH. cbn [fst]. case_bool_decide as Hin.
    + rewrite bool_decide_eq_true_2; [done|]. by apply list_elem_of_further.
    + rewrite bool_decide_eq_false_2; [done|].
      intros [?|?]%elem_of_cons; simplify_eq; done.
Qed.

Lemma dict_update_ok d link texts :
  link ≠ "" → texts ≠ ∅ → dict_ok d → dict_ok (dict_update d link texts).
Proof.
  intros Hlink Htexts [Hnd Hall]. split.
  - rewrite dict_update_keys. case_bool_decide as Hin; [done|].
    apply NoDup_app. split; [done|]. split; [|apply NoDup_singleton].
    by intros x Hx ->%list_elem_of_singleton.
  - clear Hnd. induction Hall as [|[k v] d [Hk Hv] Hall IH]; simpl.
    + by repeat constructor.
    + destruct (String.eqb k link).
      * constructor; [|done]. split; [done|]. simpl in *. set_solver.
      * by constructor.
Qed.

Lemma link_to_texts_ok l :
  Forall (fun p => p.2 ≠ ∅) l → dict_ok (link_to_texts l).
Proof.
  unfold link_to_texts. intros Hl.
  assert (dict_ok []) as Hd by (split; constructor).
  revert Hd. generalize (@nil (string * gset string)) as d.
  induction Hl as [|[link texts] l Htexts Hl IH]; intros d Hd; [done|].
  simpl. apply IH. destruct (Py.truthy link) eqn:Hlink; [|done].
  apply dict_update_ok; [by apply truthy_nonempty | done | done].
Qed.

Lemma links_and_text_member anchors base_url : ∀ l a href link,
  links_and_text is_ipv6_address nfkc anchors base_url = Some l →
  a ∈ anchors →
  kept_href (e_tag a) = Some href →
  normalize_url href (Some base_url) = Some link →
  (link, anchor_texts (e_tag a)) ∈ l.
Proof.
  induction anchors as [|a' anchors IH]; intros l a href link Hl Ha Hk Hn.
  - by apply elem_of_nil in Ha.
  - cbn [links_and_text] in Hl.
    apply elem_of_cons in Ha as [->|Ha].
    + rewrite Hk, Hn in Hl. simpl in Hl.
      destruct (links_and_text _ _ anchors base_url); [|done].
      injection Hl as <-. apply list_elem_of_here.
    + destruct (kept_href (e_tag a')); [|by eapply IH].
      destruct (normalize_url _ _); [|done]. simpl in Hl.
      destruct (links_and_text _ _ anchors base_url) as [rest|] eqn:E;
        [|done].
      injection Hl as <-. apply list_elem_of_further. by eapply IH.
Qed.

Lemma dict_update_member d link texts :
  ∃ v, (link, v) ∈ dict_update d link texts ∧ texts ⊆ v.
Proof.
  induction d as [|[k v] d (v' & Hin & Hsub)]; simpl.
  - exists texts. split; [apply list_elem_of_here | done].
  - destruct (String.eqb_spec k link) as [->|Hk].
    + exists (v ∪ texts). split; [apply list_elem_of_here | set_solver].
    + exists v'. split; [by apply list_elem_of_further | done].
Qed.

Lemma dict_update_mono d link texts k v :
  (k, v) ∈ d → ∃ v', (k, v') ∈ dict_update d link texts ∧ v ⊆ v'.
Proof.
  induction d as [|[k0 v0] d IH]; simpl; [by intros ?%elem_of_nil|].
  intros [[= -> ->]|Hin]%elem_of_cons.
  - destruct (String.eqb k0 link).
    + exists (v0 ∪ texts). split; [apply list_elem_of_here | set_solver].
    + exists v0. split; [apply list_elem_of_here | done].
  - destruct (String.eqb k0 link).
    + exists v. split; [by apply list_elem_of_further | done].
    + destruct (IH Hin) as (v' & Hv' & Hsub). exists v'.
      split; [by apply list_elem_of_further | done].
Qed.

Lemma add_links_mono l : ∀ d k v,
  (k, v) ∈ d → ∃ v', (k, v') ∈ fold_left add_link l d ∧ v ⊆ v'.
Proof.
  induction l as [|[link texts] l IH]; intros d k v Hin; simpl.
  - by exists v.
  - destruct (Py.truthy link); [|by apply IH].
    destruct (dict_update_mono d link texts k v Hin) as (v1 & Hv1 & Hsub1).
    destruct (IH _ _ _ Hv1) as (v2 & Hv2 & Hsub2).
    exists v2. split; [done | set_solver].
Qed.

Lemma add_links_member l : ∀ d link texts,
  (link, texts) ∈ l → link ≠ "" →
  ∃ v, (link, v) ∈ fold_left add_link l d ∧ texts ⊆ v.
Proof.
  induction l as [|[link' texts'] l IH]; intros d link texts Hin Hlink.
  - by apply elem_of_nil in Hin.
  - simpl. apply elem_of_cons in Hin as [[= <- <-]|Hin]; [|by apply IH].
    apply truthy_nonempty in Hlink as ->.
    destruct (dict_update_member d link texts) as (v1 & Hv1 & Hsub1).
    destruct (add_links_mono l _ _ _ Hv1) as (v2 & Hv2 & Hsub2).
    exists v2. split; [done | set_solver].
Qed.

(** C10. Every record [extract_links_with_text] returns has a non-empty
    [url], a non-empty list of texts and the page as [found_on_url]; no two
    records have the same [url]; and every link that is kept and not empty
    has its record, with the texts of each of its anchors. *)
Theorem extract_links_with_text_records soup base_url records :
  extract_links_with_text soup base_url = Some records →
  well_formed_links base_url records
  ∧ links_complete is_ipv6_address nfkc soup base_url records.
Proof.
  unfold extract_links_with_text.
  destruct (links_and_text _ _ _ base_url) as [l|] eqn:Hl; [|done].
  simpl. intros [= <-].
  destruct (link_to_texts_ok l (links_and_text_nonempty _ _ _ Hl))
    as [Hnd Hall].
  split; [split|].
  - apply Forall_map. eapply Forall_impl; [exact Hall|].
    intros [link texts] [Hlink Htexts]. simpl in *. repeat split; [done|].
    intros He. apply Htexts. by apply elements_empty_iff, leibniz_equiv in He.
  - rewrite <- list_fmap_compose.
    erewrite list_fmap_ext; [exact Hnd|]. by intros i [link texts] _.
  - intros a href link Ha Hk Hn Hlink.
    pose proof (links_and_text_member _ _ _ _ _ _ Hl Ha Hk Hn) as Hin.
    destruct (add_links_member l [] _ _ Hin Hlink) as (v & Hv & Hsub).
    exists (mkLinkData link (elements v) base_url). split; [|split; [done|]].
    + apply list_elem_of_fmap. exists (link, v). split; [done|].
      exact Hv.
    + intros t Ht. simpl. apply elem_of_elements. set_solver.
Qed.

(** *** C8 and C9: the two detectors *)

Lemma lower_backslash s : Py.char_in "\" (Py.lower s) = Py.char_in "\" s.
Proof.
  induction s as [|a s IH]; [done|]. simpl. rewrite IH. f_equal.
  unfold Py.lower_char. destruct (Py.is_upper a) eqn:Hu; [|done].
  destruct a as [[] [] [] [] [] [] [] []]; try done.
Qed.

Lemma str_in_backslash p s :
  Py.str_in (String "\" p) s = true → Py.char_in "\" s = true.
Proof.
  induction s as [|a s IH]; [done|].
  cbn [Py.str_in Py.startswith Py.char_in]. intros [H|H]%orb_true_iff.
  - apply andb_true_iff in H as [H%Ascii.eqb_eq _]. subst a.
    by rewrite Ascii.eqb_refl.
  - rewrite IH by done. apply orb_true_r.
Qed.

(** What [accept_texts] finds has a backslash in it. *)
Lemma accept_texts_search_backslash s :
  accept_texts_search s = true → Py.char_in "\" s = true.
Proof.
  unfold accept_texts_search. intros (w & _ & Hw)%existsb_exists.
  rewrite <- lower_backslash. by eapply str_in_backslash.
Qed.

(** C8. A page that is one button [Accept all], or one link [Agree], gives
    no candidate: [accept_texts] wants a backslash before and after the
    word. *)
Theorem accept_button_is_not_a_candidate :
  accept_texts_search "Accept all" = false
  ∧ find_cookie_consent_candidates Ex.accept_all_page 5 = []
  ∧ accept_texts_search "Agree" = false
  ∧ find_cookie_consent_candidates Ex.agree_page 5 = [].
Proof. repeat split; reflexivity. Qed.

(** C9. On the page [Ex.nested_page] the detector keeps two containers, the
    [nav] and the outermost [div], and the first is found below the
    second. *)
Theorem pagination_keeps_a_nested_container :
  match find_pagination_containers Ex.nested_page 5 with
  | [inner; outer] =>
      e_path inner = [0; 0; 0; 0; 0; 0]%nat ∧ name_of (e_tag inner) = "nav"
      ∧ e_path outer = [0%nat] ∧ name_of (e_tag outer) = "div"
      ∧ in_find_all inner outer = true
  | _ => False
  end
  ∧ length (find_pagination_candidates Ex.nested_page 5) = 2%nat.
Proof. vm_compute. repeat split; reflexivity. Qed.

(** *** C5: the delay between two requests *)

(** C5. With two slots, two calls that enter [get_content] less than
    [delay] after the last request both sleep until the same time, and their
    requests leave together. *)
Theorem two_requests_leave_together :
  (Handler.dispatched ∘ fst <$>
     Handler.run
       (Handler.new_handler 1000 2 5000,
        [Handler.Queued; Handler.Queued; Handler.Queued]) Ex.three_calls)
    = Some [5000; 6000; 6000]%Z
  ∧ ¬ Handler.spaced 1000 [5000; 6000; 6000]%Z.
Proof. split; [reflexivity|]. simpl. lia. Qed.

End Properties.

(** *** The handler with one slot *)

Module HandlerFacts.
Import Handler.

Lemma spaced_snoc d l t :
  spaced d (l ++ [t]) ↔ spaced d l ∧ ∀ x, last l = Some x → (x + d ≤ t)%Z.
Proof.
  induction l as [|a l IH]; simpl.
  - split; [intros _; split; [done | by intros x [=]] | done].
  - destruct l as [|b l]; simpl in *.
    + split.
      * intros [H _]. split; [done|]. by intros x [= <-].
      * intros [_ H]. split; [by apply H | done].
    + rewrite IH. tauto.
Qed.

Lemma lookup_insert_cases (calls : list call) i j c cj :
  <[i := c]> calls !! j = Some cj →
  (j = i ∧ cj = c) ∨ (j ≠ i ∧ calls !! j = Some cj).
Proof.
  destruct (decide (j = i)) as [->|Hne].
  - intros H. left. split; [done|].
    destruct (decide (i < length calls)%nat).
    + rewrite list_lookup_insert_eq in H by done. congruence.
    + rewrite list_insert_ge in H by lia.
      apply lookup_lt_Some in H. lia.
  - rewrite list_lookup_insert_ne by done. by right.
Qed.

Ltac split_inv := split; [|split; [|split; [|split; [|split]]]].

Lemma one_slot_step st ev st' :
  step st ev = Some st' → one_slot_invariant st → one_slot_invariant st'.
Proof.
  destruct st as [h calls], st' as [h' calls']. unfold step.
  intros Hstep (Hsem & Hfree & Huniq & Hsp & Hlast & Hsleep).
  destruct ev as [i|i|i|dt].
  - destruct (calls !! i) as [[| | |]|] eqn:Hi; try done.
    destruct (0 <? semaphore h)%Z eqn:Hpos; [|done].
    assert (semaphore h = 1%Z) as Hone by lia.
    specialize (Hfree Hone). simpl in Hstep.
    destruct (clock h - last_request_time h <? delay h)%Z eqn:Hlt;
      injection Hstep as <- <-; simpl; rewrite Hone.
    + split_inv.
      * by right.
      * intros ?; lia.
      * intros j k cj ck [[-> ->]|[Hj Hcj]]%lookup_insert_cases
          [[-> ->]|[Hk Hck]]%lookup_insert_cases Haj Hak; try done.
        -- rewrite (Hfree _ _ Hck) in Hak. done.
        -- rewrite (Hfree _ _ Hcj) in Haj. done.
        -- rewrite (Hfree _ _ Hcj) in Haj. done.
      * done.
      * done.
      * intros j w [[-> [= ->]]|[Hj Hcj]]%lookup_insert_cases; [lia|].
        by specialize (Hfree _ _ Hcj).
    + split_inv.
      * by right.
      * intros ?; lia.
      * intros j k cj ck [[-> ->]|[Hj Hcj]]%lookup_insert_cases
          [[-> ->]|[Hk Hck]]%lookup_insert_cases Haj Hak; try done.
        -- rewrite (Hfree _ _ Hck) in Hak. done.
        -- rewrite (Hfree _ _ Hcj) in Haj. done.
        -- rewrite (Hfree _ _ Hcj) in Haj. done.
      * apply spaced_snoc. split; [done|].
        intros x [<- _]%Hlast. lia.
      * rewrite last_snoc. by intros t [= <-].
      * intros j w [[-> [=]]|[Hj Hcj]]%lookup_insert_cases.
        by specialize (Hfree _ _ Hcj).
  - destruct (calls !! i) as [[|w| |]|] eqn:Hi; try done.
    destruct (w <=? clock h)%Z eqn:Hw; [|done].
    injection Hstep as <- <-; simpl.
    assert (semaphore h = 0%Z) as Hzero.
    { destruct Hsem as [Hone|]; [|done]. by specialize (Hfree Hone _ _ Hi). }
    split_inv.
    + by right.
    + lia.
    + intros j k cj ck [[-> ->]|[Hj Hcj]]%lookup_insert_cases
        [[-> ->]|[Hk Hck]]%lookup_insert_cases Haj Hak; try done.
      * symmetry. by eapply (Huniq k i ck (Sleeping w)).
      * by eapply (Huniq j i cj (Sleeping w)).
      * by eapply Huniq.
    + apply spaced_snoc. split; [done|].
      intros x [<- _]%Hlast. specialize (Hsleep _ _ Hi). lia.
    + rewrite last_snoc. by intros t [= <-].
    + intros j w' [[-> [=]]|[Hj Hcj]]%lookup_insert_cases.
      by specialize (Huniq j i _ _ Hcj Hi eq_refl eq_refl).
  - destruct (calls !! i) as [[| | |]|] eqn:Hi; try done.
    injection Hstep as <- <-; simpl.
    assert (semaphore h = 0%Z) as Hzero.
    { destruct Hsem as [Hone|]; [|done]. by specialize (Hfree Hone _ _ Hi). }
    split_inv.
    + left. lia.
    + intros _ j cj [[-> ->]|[Hj Hcj]]%lookup_insert_cases; [done|].
      destruct (active cj) eqn:Ha; [|done].
      by specialize (Huniq j i _ _ Hcj Hi Ha eq_refl).
    + intros j k cj ck [[-> ->]|[Hj Hcj]]%lookup_insert_cases
        [[-> ->]|[Hk Hck]]%lookup_insert_cases Haj Hak; try done.
      by eapply Huniq.
    + done.
    + done.
    + intros j w [[-> [=]]|[Hj Hcj]]%lookup_insert_cases. by eapply Hsleep.
  - destruct (0 <=? dt)%Z eqn:Hdt; [|done].
    injection Hstep as <- <-; simpl.
    split_inv; [done | done | done | done | | done].
    intros x Hx. destruct (Hlast x Hx) as [? ?]. split; [done | lia].
Qed.

Lemma one_slot_run events : ∀ st st',
  run st events = Some st' → one_slot_invariant st → one_slot_invariant st'.
Proof.
  induction events as [|ev events IH]; intros st st' Hrun Hinv.
  - by injection Hrun as <-.
  - cbn [run] in Hrun. destruct (step st ev) as [st1|] eqn:E;
      simpl in Hrun; [|discriminate].
    eapply IH; [exact Hrun|]. by eapply one_slot_step.
Qed.

Lemma step_delay st ev st' :
  step st ev = Some st' → delay st'.1 = delay st.1.
Proof.
  destruct st as [h calls]. unfold step. intros Hstep.
  destruct ev as [i|i|i|dt].
  - destruct (calls !! i) as [[| | |]|]; try done.
    destruct (0 <? semaphore h)%Z; [|done]. simpl in Hstep.
    by destruct (_ <? _)%Z; injection Hstep as <-.
  - destruct (calls !! i) as [[|w| |]|]; try done.
    by destruct (w <=? clock h)%Z; [injection Hstep as <-|].
  - destruct (calls !! i) as [[| | |]|]; try done.
    by injection Hstep as <-.
  - by destruct (0 <=? dt)%Z; [injection Hstep as <-|].
Qed.

Lemma run_delay events : ∀ st st',
  run st events = Some st' → delay st'.1 = delay st.1.
Proof.
  induction events as [|ev events IH]; intros st st' Hrun.
  - by injection Hrun as <-.
  - cbn [run] in Hrun. destruct (step st ev) as [st1|] eqn:E;
      simpl in Hrun; [|discriminate].
    rewrite (IH _ _ Hrun). by eapply step_delay.
Qed.

(** X1. With one slot, whatever happens, each request leaves at least
    [delay] after the one before it. *)
Lemma one_slot_spaced delay now calls events h' calls' :
  Forall (fun c => c = Queued) calls →
  run (new_handler delay 1 now, calls) events = Some (h', calls') →
  spaced delay (dispatched h').
Proof.
  intros Hq Hrun.
  assert (one_slot_invariant (new_handler delay 1 now, calls)) as Hinv.
  { split_inv; simpl.
    - by left.
    - intros _ i c Hc. by rewrite (proj1 (Forall_lookup _ _) Hq i c Hc).
    - intros i j ci cj Hi Hj Hai.
      by rewrite (proj1 (Forall_lookup _ _) Hq i ci Hi) in Hai.
    - done.
    - done.
    - intros i w Hi. by specialize (proj1 (Forall_lookup _ _) Hq i _ Hi). }
  pose proof (one_slot_run _ _ _ Hrun Hinv) as (_ & _ & _ & Hsp & _).
  pose proof (run_delay _ _ _ Hrun) as Hd. simpl in Hd. by rewrite Hd in Hsp.
Qed.

End HandlerFacts.

(** *** The scenario of the pagination detector *)

(** On the input of the scenario the containers are the document and the
    [nav], both 86 characters long.  The set gives them in one order or the
    other: the detector keeps the document alone, or the [nav] and then the
    document. *)
Lemma pagination_scenario_containers :
  map e_path (pagination_candidate_containers Ex.scenario_page) = [[]; [0%nat]]
  ∧ map (str_len ∘ e_tag) (pagination_candidate_containers Ex.scenario_page)
    = [86; 86]%nat
  ∧ ∀ cs, Permutation (pagination_candidate_containers Ex.scenario_page) cs →
      map e_path (pagination_final_containers cs) = [[]]
      ∨ map e_path (pagination_final_containers cs) = [[0%nat]; []].
Proof.
  split; [reflexivity|]. split; [reflexivity|].
  intros cs Hcs.
  destruct (pagination_candidate_containers Ex.scenario_page)
    as [|x [|y [|z l]]] eqn:E; try discriminate E.
  apply Permutation_length_2_inv in Hcs as [->| ->];
    injection E as <- <-; [left | right]; reflexivity.
Qed.

(** *** The theorems at the inputs of the examples *)

Lemma each_url_fetched_at_most_once_witness :
  crawl Ex.no_ipv6 Ex.nfkc_ascii Ex.schedule 2 Ex.seed = Some Ex.final
  ∧ NoDup (fetched Ex.final).
Proof.
  assert (crawl Ex.no_ipv6 Ex.nfkc_ascii Ex.schedule 2 Ex.seed
          = Some Ex.final) as H by (vm_compute; reflexivity).
  split; [exact H|].
  exact (each_url_fetched_at_most_once Ex.no_ipv6 Ex.nfkc_ascii Ex.schedule 2
           Ex.seed Ex.final H).
Defined.

Lemma depth_found_assigned_once_witness :
  crawl_loop Ex.no_ipv6 Ex.nfkc_ascii Ex.schedule (new_crawler 2)
    "example.com" [Ex.seed] 0 = Some Ex.final
  ∧ registry_ok (new_crawler 2)
  ∧ registry_ok Ex.final
  ∧ registry_le (all_links (new_crawler 2)) (all_links Ex.final).
Proof.
  assert (crawl_loop Ex.no_ipv6 Ex.nfkc_ascii Ex.schedule (new_crawler 2)
            "example.com" [Ex.seed] 0 = Some Ex.final) as H
    by (vm_compute; reflexivity).
  assert (registry_ok (new_crawler 2)) as Hok by (intros u; reflexivity).
  split; [exact H|]. split; [exact Hok|].
  exact (depth_found_assigned_once Ex.no_ipv6 Ex.nfkc_ascii Ex.schedule
           (new_crawler 2) "example.com" [Ex.seed] 0 Ex.final H Hok).
Defined.

Lemma existing_record_gets_the_page_only_witness :
  all_links Ex.known !! url Ex.rediscovered
    = Some (mkLinkRecord "https://example.com/a" ["Home"] [Ex.seed] 0)
  ∧ ∃ r', all_links (fst (aggregate_link 1 (Ex.known, []) Ex.rediscovered))
            !! url Ex.rediscovered = Some r'
          ∧ found_on_url Ex.rediscovered ∈ found_on_urls r'
          ∧ found_on_urls r' = [Ex.seed; "https://example.com/b"]
          ∧ r_associated_texts r' = ["Home"]
          ∧ r_url r' = "https://example.com/a" ∧ depth_found r' = 0%Z.
Proof.
  assert (all_links Ex.known !! url Ex.rediscovered
          = Some (mkLinkRecord "https://example.com/a" ["Home"] [Ex.seed] 0))
    as H by (vm_compute; reflexivity).
  split; [exact H|].
  exact (existing_record_gets_the_page_only 1 Ex.known [] Ex.rediscovered
           _ H).
Defined.

Lemma extract_links_with_text_records_witness :
  extract_links_with_text Ex.no_ipv6 Ex.nfkc_ascii Ex.page_seed Ex.seed
    = Some Ex.seed_links
  ∧ well_formed_links Ex.seed Ex.seed_links
  ∧ links_complete Ex.no_ipv6 Ex.nfkc_ascii Ex.page_seed Ex.seed
      Ex.seed_links.
Proof.
  assert (extract_links_with_text Ex.no_ipv6 Ex.nfkc_ascii Ex.page_seed
            Ex.seed = Some Ex.seed_links) as H by (vm_compute; reflexivity).
  split; [exact H|].
  exact (extract_links_with_text_records Ex.no_ipv6 Ex.nfkc_ascii
           Ex.page_seed Ex.seed Ex.seed_links H).
Defined.

(** C7, as the claim states it, fails: the link is known under the text
    [Home]; found again on another page under the text [Start], its record
    gets the page and not the text. *)
Lemma texts_of_a_known_link_are_not_merged :
  ¬ page_and_texts_merged
      (fst (aggregate_link 1 (Ex.known, []) Ex.rediscovered))
      Ex.rediscovered.
Proof.
  intros (r & Hr & _ & Ht).
  rewrite (aggregate_link_known 1 Ex.known [] Ex.rediscovered _ eq_refl)
    in Hr.
  injection Hr as <-. specialize (Ht "Start"). simpl in Ht.
  assert ("Start" ∈ ["Home"]) as Hin
    by (apply Ht, list_elem_of_here).
  apply list_elem_of_singleton in Hin. discriminate Hin.
Qed.

(** * Further properties *)

(** ** The handler: slots *)

Module HandlerSlots.
Import Handler.

Lemma holding_insert calls : ∀ i c c',
  calls !! i = Some c →
  (holding (<[i := c']> calls) + (if active c then 1 else 0)
   = holding calls + (if active c' then 1 else 0))%nat.
Proof.
  unfold holding.
  induction calls as [|x calls IH]; intros i c c' Hi; [done|].
  destruct i as [|i]; simpl in *.
  - injection Hi as ->. destruct (active c), (active c'); simpl; lia.
  - specialize (IH i c c' Hi). destruct (active x); simpl; lia.
Qed.

Lemma holding_queued calls :
  Forall (fun c => c = Queued) calls → holding calls = 0%nat.
Proof. unfold holding. induction 1 as [|c calls -> _ IH]; [done|]. by simpl. Qed.

Lemma slots_step total st ev st' :
  step st ev = Some st' → slots_invariant total st → slots_invariant total st'.
Proof.
  destruct st as [h calls]. unfold step, slots_invariant. simpl.
  intros Hstep [Hpos Hsum].
  destruct ev as [i|i|i|dt].
  - destruct (calls !! i) as [[| | |]|] eqn:Hi; try done.
    destruct (0 <? semaphore h)%Z eqn:Hs; [|done]. simpl in Hstep.
    destruct (clock h - last_request_time h <? delay h)%Z;
      injection Hstep as <-; simpl;
      match goal with |- context [holding (<[i := ?c']> calls)] =>
        pose proof (holding_insert calls i _ c' Hi) as Hh end;
      simpl in Hh; lia.
  - destruct (calls !! i) as [[|w| |]|] eqn:Hi; try done.
    destruct (w <=? clock h)%Z; [|done]. injection Hstep as <-; simpl.
    pose proof (holding_insert calls i _ InFlight Hi) as Hh.
    simpl in Hh. lia.
  - destruct (calls !! i) as [[| | |]|] eqn:Hi; try done.
    injection Hstep as <-; simpl.
    pose proof (holding_insert calls i _ Returned Hi) as Hh.
    simpl in Hh. lia.
  - destruct (0 <=? dt)%Z; [|done]. by injection Hstep as <-.
Qed.

Lemma slots_run total events : ∀ st st',
  run st events = Some st' → slots_invariant total st →
  slots_invariant total st'.
Proof.
  induction events as [|ev events IH]; intros st st' Hrun Hinv.
  - by injection Hrun as <-.
  - cbn [run] in Hrun. destruct (step st ev) as [st1|] eqn:E;
      simpl in Hrun; [|discriminate].
    eapply IH; [exact Hrun|]. by eapply slots_step.
Qed.

(** X2. On a handler made with [max_concurrent] slots, whatever happens, the
    calls that hold a slot are never more than [max_concurrent], and the
    semaphore counts the slots left. *)
Theorem slots_held_at_most_max_concurrent
  delay max_concurrent now calls events h' calls' :
  (0 ≤ max_concurrent)%Z →
  Forall (fun c => c = Queued) calls →
  run (new_handler delay max_concurrent now, calls) events
    = Some (h', calls') →
  (Z.of_nat (holding calls') ≤ max_concurrent)%Z
  ∧ (semaphore h' = max_concurrent - Z.of_nat (holding calls'))%Z.
Proof.
  intros Hmax Hq Hrun.
  assert (slots_invariant max_concurrent
            (new_handler delay max_concurrent now, calls)) as Hinv.
  { split; simpl; [done|]. rewrite (holding_queued _ Hq). lia. }
  destruct (slots_run _ _ _ _ Hrun Hinv) as [Hpos Hsum]. simpl in *. lia.
Qed.

End HandlerSlots.

Lemma one_slot_spaced_witness :
  Forall (fun c => c = Handler.Queued) [Handler.Queued; Handler.Queued]
  ∧ Handler.run
      (Handler.new_handler 1000 1 5000, [Handler.Queued; Handler.Queued])
      Ex.two_calls = Some Ex.after_two_calls
  ∧ Handler.spaced 1000 (Handler.dispatched Ex.after_two_calls.1).
Proof.
  assert (Forall (fun c => c = Handler.Queued)
            [Handler.Queued; Handler.Queued]) as Hq
    by (repeat constructor).
  assert (Handler.run
            (Handler.new_handler 1000 1 5000,
             [Handler.Queued; Handler.Queued])
            Ex.two_calls = Some Ex.after_two_calls) as Hrun
    by (vm_compute; reflexivity).
  split; [exact Hq|]. split; [exact Hrun|].
  exact (HandlerFacts.one_slot_spaced 1000 5000
           [Handler.Queued; Handler.Queued] Ex.two_calls
           Ex.after_two_calls.1 Ex.after_two_calls.2 Hq Hrun).
Defined.

Lemma slots_held_at_most_max_concurrent_witness :
  (0 ≤ 2)%Z
  ∧ Forall (fun c => c = Handler.Queued)
      [Handler.Queued; Handler.Queued; Handler.Queued]
  ∧ Handler.run
      (Handler.new_handler 1000 2 5000,
       [Handler.Queued; Handler.Queued; Handler.Queued])
      Ex.three_calls = Some Ex.after_three_calls
  ∧ (Z.of_nat (Handler.holding Ex.after_three_calls.2) ≤ 2)%Z
  ∧ (Handler.semaphore Ex.after_three_calls.1
     = 2 - Z.of_nat (Handler.holding Ex.after_three_calls.2))%Z.
Proof.
  assert (0 ≤ 2)%Z as H0 by lia.
  assert (Forall (fun c => c = Handler.Queued)
            [Handler.Queued; Handler.Queued; Handler.Queued]) as Hq
    by (repeat constructor).
  assert (Handler.run
            (Handler.new_handler 1000 2 5000,
             [Handler.Queued; Handler.Queued; Handler.Queued])
            Ex.three_calls = Some Ex.after_three_calls) as Hrun
    by (vm_compute; reflexivity).
  split; [exact H0|]. split; [exact Hq|]. split; [exact Hrun|].
  exact (HandlerSlots.slots_held_at_most_max_concurrent 1000 2 5000
           [Handler.Queued; Handler.Queued; Handler.Queued] Ex.three_calls
           Ex.after_three_calls.1 Ex.after_three_calls.2 H0 Hq Hrun).
Defined.

(** ** The depth crawler: the crawl as a whole *)

Section CrawlProperties.

Variable is_ipv6_address : string -> bool.
Variable nfkc : string -> string.

Local Abbreviation process_url_start := (process_url_start is_ipv6_address nfkc).
Local Abbreviation process_url_finish := (process_url_finish is_ipv6_address nfkc).
Local Abbreviation extract_links_with_text :=
  (extract_links_with_text is_ipv6_address nfkc).
Local Abbreviation step := (step is_ipv6_address nfkc).
Local Abbreviation run := (run is_ipv6_address nfkc).
Local Abbreviation crawl_depth_level := (crawl_depth_level is_ipv6_address nfkc).
Local Abbreviation crawl_loop := (crawl_loop is_ipv6_address nfkc).
Local Abbreviation crawl := (crawl is_ipv6_address nfkc).
Local Abbreviation is_same_domain := (is_same_domain is_ipv6_address nfkc).

Section LevelRule.

(** A property of the crawler kept by the two writers, for the domain
    [base_domain] and the depths from [d0] up to [max_depth]. *)
Variables (base_domain : string) (m d0 : Z) (P : crawler -> Prop).
Hypothesis P_depth : ∀ c, P c → max_depth c = m.
Hypothesis P_start : ∀ c url c',
  process_url_start c url base_domain = Some c' → P c → P c'.
Hypothesis P_link : ∀ d c next link,
  (d0 ≤ d < m)%Z → P c → P (fst (aggregate_link d (c, next) link)).

Lemma level_links d links : ∀ c next,
  (d0 ≤ d < m)%Z → P c →
  P (fst (fold_left (aggregate_link d) links (c, next))).
Proof.
  induction links as [|link links IH]; intros c next Hd Hc; [done|].
  change (P (fst (fold_left (aggregate_link d) links
                    (aggregate_link d (c, next) link)))).
  pose proof (P_link d c next link Hd Hc) as H.
  destruct (aggregate_link d (c, next) link) as [c1 next1]. by apply IH.
Qed.

Lemma level_step d c tasks ev c' tasks' :
  (d0 ≤ d < m)%Z →
  step d base_domain (c, tasks) ev = Some (c', tasks') → P c → P c'.
Proof.
  intros Hd. unfold step. destruct ev as [i|i content].
  - destruct (tasks !! i) as [[url| |]|]; try done.
    destruct (process_url_start c url base_domain) as [c1|] eqn:E.
    + intros [= <- _] Hc. by eapply P_start.
    + by intros [= <- _].
  - destruct (tasks !! i) as [[|url|]|]; try done.
    intros Hstep Hc.
    assert (P (fst (process_url_finish c url d content))) as H.
    { unfold process_url_finish. destruct content as [soup|]; [|done].
      destruct (extract_links_with_text soup url); [|done].
      by apply level_links. }
    destruct (process_url_finish c url d content) as [c1 next].
    by injection Hstep as <- _.
Qed.

Lemma level_run d events : ∀ c tasks c' tasks',
  (d0 ≤ d < m)%Z →
  run d base_domain (c, tasks) events = Some (c', tasks') → P c → P c'.
Proof.
  induction events as [|ev events IH]; intros c tasks c' tasks' Hd Hrun Hc.
  - by injection Hrun as <- _.
  - change (step d base_domain (c, tasks) ev
              ≫= (fun st' => run d base_domain st' events)
            = Some (c', tasks')) in Hrun.
    destruct (step d base_domain (c, tasks) ev) as [[c1 tasks1]|] eqn:E;
      simpl in Hrun; [|discriminate].
    eapply IH; [done | exact Hrun |]. by eapply level_step.
Qed.

Lemma level_loop schedule : ∀ c urls d c',
  (d0 ≤ d)%Z →
  crawl_loop schedule c base_domain urls d = Some c' → P c → P c'.
Proof.
  induction schedule as [|events schedule IH];
    intros c urls d c' Hd Hloop Hc; cbn [crawl_loop] in Hloop.
  - destruct (_ && _); [discriminate|]. by injection Hloop as <-.
  - destruct (negb (bool_decide (urls = []))) eqn:Hu;
      [|by injection Hloop as <-].
    destruct (d <? max_depth c)%Z eqn:Hlt; [|by injection Hloop as <-].
    simpl in Hloop. unfold crawl_depth_level in Hloop.
    apply negb_true_iff in Hu. rewrite Hu in Hloop.
    rewrite (P_depth c Hc) in Hlt, Hloop.
    replace (m <=? d)%Z with false in Hloop by lia. simpl in Hloop.
    destruct (run d base_domain (c, map Pending urls) events)
      as [[c1 tasks]|] eqn:E; simpl in Hloop; [|discriminate].
    destruct (results tasks); simpl in Hloop; [|discriminate].
    eapply (IH c1 _ (d + 1)%Z); [lia | exact Hloop |].
    eapply level_run; [|exact E|exact Hc]. lia.
Qed.

End LevelRule.

(** X3. Every URL handed to [get_content] during a crawl passed
    [is_same_domain] against the domain of the start URL. *)
Theorem fetched_urls_are_in_the_domain schedule m start_url c :
  crawl schedule m start_url = Some c →
  ∃ p, urlparse is_ipv6_address nfkc start_url "" = Some p
       ∧ fetched_in_domain is_ipv6_address nfkc (Urllib.netloc p) c.
Proof.
  unfold crawl. destruct (urlparse _ _ start_url "") as [p|]; [|done].
  simpl. intros Hloop. exists p. split; [done|].
  eapply (level_loop (Urllib.netloc p) m 0
            (fun c => max_depth c = m
                      ∧ fetched_in_domain is_ipv6_address nfkc
                          (Urllib.netloc p) c)).
  - by intros c0 [? _].
  - intros c0 url c1. unfold process_url_start.
    destruct (is_same_domain url _) eqn:Hd; [|done]. simpl.
    case_bool_decide; [done|]. intros [= <-] [Hm Hin]. split; [done|].
    intros u [Hu | ->%list_elem_of_singleton]%elem_of_app; [by apply Hin|].
    done.
  - by intros d c0 next link _ [Hm Hin].
  - reflexivity.
  - exact Hloop.
  - split; [done|]. by intros u Hu%elem_of_nil.
Qed.

(** X4. When [crawl] returns, [visited_urls] is the set of the URLs that
    were handed to [get_content]. *)
Theorem visited_urls_are_the_fetched_urls schedule m start_url c :
  crawl schedule m start_url = Some c → visited_are_fetched c.
Proof.
  unfold crawl. destruct (urlparse _ _ start_url "") as [p|]; [|done].
  simpl. intros Hloop.
  eapply (level_loop (Urllib.netloc p) m 0
            (fun c => max_depth c = m
                      ∧ visited_are_fetched c)).
  - by intros c0 [? _].
  - intros c0 url c1. unfold process_url_start.
    destruct (negb _); [done|]. case_bool_decide; [done|].
    intros [= <-] [Hm Hv]. split; [done|]. intros u. simpl.
    rewrite elem_of_union, elem_of_app, elem_of_singleton,
      list_elem_of_singleton. by rewrite (Hv u).
  - by intros d c0 next link _ [Hm Hin].
  - reflexivity.
  - exact Hloop.
  - split; [done|]. intros u. simpl. set_solver.
Qed.

Lemma records_well_formed_link d c next link :
  (0 ≤ d < max_depth c)%Z → records_well_formed c →
  records_well_formed (fst (aggregate_link d (c, next) link)).
Proof.
  intros Hd Hwf u r. destruct (decide (u = url link)) as [->|Hu].
  - destruct (all_links c !! url link) as [r0|] eqn:Hr0.
    + rewrite (aggregate_link_known _ _ _ _ _ Hr0). intros [= <-].
      destruct (Hwf _ _ Hr0) as (Hk & Hne & Hnd & Hdepth). simpl.
      split; [done|]. destruct (Py.in_list _ _) eqn:Hin.
      * done.
      * split; [by destruct (found_on_urls r0)|]. split; [|done].
        apply NoDup_app. split; [done|]. split; [|apply NoDup_singleton].
        intros x Hx ->%list_elem_of_singleton.
        apply not_true_iff_false in Hin. apply Hin.
        apply existsb_exists. exists (found_on_url link).
        split; [by apply list_elem_of_In | apply String.eqb_refl].
    + rewrite (aggregate_link_new _ _ _ _ Hr0). intros [= <-]. simpl.
      split; [done|]. split; [done|]. split; [apply NoDup_singleton|done].
  - rewrite aggregate_link_other by done. apply Hwf.
Qed.

(** X5. When [crawl] returns, every record of the registry is filed under
    its own url, lists at least one page and no page twice, and has a
    [depth_found] between 0 and [max_depth - 1]. *)
Theorem registry_records_are_well_formed schedule m start_url c :
  crawl schedule m start_url = Some c → records_well_formed c.
Proof.
  unfold crawl. destruct (urlparse _ _ start_url "") as [p|]; [|done].
  simpl. intros Hloop.
  eapply (level_loop (Urllib.netloc p) m 0
            (fun c => max_depth c = m
                      ∧ records_well_formed c)).
  - by intros c0 [? _].
  - intros c0 url c1. unfold process_url_start.
    destruct (negb _); [done|]. case_bool_decide; [done|].
    by intros [= <-] [Hm Hv].
  - intros d c0 next link Hd [Hm Hwf]. split; [done|].
    apply records_well_formed_link; [lia | done].
  - reflexivity.
  - exact Hloop.
  - split; [done|]. intros u r Hr. simpl in Hr. by rewrite lookup_empty in Hr.
Qed.

End CrawlProperties.

Lemma fetched_urls_are_in_the_domain_witness :
  crawl Ex.no_ipv6 Ex.nfkc_ascii Ex.schedule 2 Ex.seed = Some Ex.final
  ∧ ∃ p, urlparse Ex.no_ipv6 Ex.nfkc_ascii Ex.seed "" = Some p
         ∧ fetched_in_domain Ex.no_ipv6 Ex.nfkc_ascii (Urllib.netloc p)
             Ex.final.
Proof.
  assert (crawl Ex.no_ipv6 Ex.nfkc_ascii Ex.schedule 2 Ex.seed
          = Some Ex.final) as H by (vm_compute; reflexivity).
  split; [exact H|].
  exact (fetched_urls_are_in_the_domain Ex.no_ipv6 Ex.nfkc_ascii Ex.schedule
           2 Ex.seed Ex.final H).
Defined.

Lemma visited_urls_are_the_fetched_urls_witness :
  crawl Ex.no_ipv6 Ex.nfkc_ascii Ex.schedule 2 Ex.seed = Some Ex.final
  ∧ visited_are_fetched Ex.final.
Proof.
  assert (crawl Ex.no_ipv6 Ex.nfkc_ascii Ex.schedule 2 Ex.seed
          = Some Ex.final) as H by (vm_compute; reflexivity).
  split; [exact H|].
  exact (visited_urls_are_the_fetched_urls Ex.no_ipv6 Ex.nfkc_ascii
           Ex.schedule 2 Ex.seed Ex.final H).
Defined.

Lemma registry_records_are_well_formed_witness :
  crawl Ex.no_ipv6 Ex.nfkc_ascii Ex.schedule 2 Ex.seed = Some Ex.final
  ∧ records_well_formed Ex.final.
Proof.
  assert (crawl Ex.no_ipv6 Ex.nfkc_ascii Ex.schedule 2 Ex.seed
          = Some Ex.final) as H by (vm_compute; reflexivity).
  split; [exact H|].
  exact (registry_records_are_well_formed Ex.no_ipv6 Ex.nfkc_ascii
           Ex.schedule 2 Ex.seed Ex.final H).
Defined.

(** ** The depth crawler: the list of the next level *)

Lemma unique_next_urls_spec l : ∀ seen u,
  u ∈ unique_next_urls seen l ↔ u ∈ l ∧ u ∉ seen.
Proof.
  induction l as [|x l IH]; intros seen u; simpl.
  - split; [by intros ?%elem_of_nil | by intros [?%elem_of_nil _]].
  - case_bool_decide as Hx.
    + rewrite IH, elem_of_cons. split.
      * intros [Hu Hn]. split; [by right | done].
      * intros [[->|Hu] Hn]; [done | by split].
    + rewrite !elem_of_cons, IH, not_elem_of_union, not_elem_of_singleton.
      split.
      * intros [->|(Hu & Hn & _)]; [by split; [left|] | by split; [right|]].
      * intros [[->|Hu] Hn]; [by left|].
        destruct (decide (u = x)) as [->|Hne]; [by left | by right].
Qed.

Lemma unique_next_urls_NoDup l : ∀ seen, NoDup (unique_next_urls seen l).
Proof.
  induction l as [|x l IH]; intros seen; simpl; [apply NoDup_nil_2|].
  case_bool_decide as Hx; [apply IH|].
  apply NoDup_cons. split; [|apply IH].
  rewrite unique_next_urls_spec, not_elem_of_union, not_elem_of_singleton.
  by intros (_ & _ & ?).
Qed.

Lemma unique_next_urls_sublist l : ∀ seen,
  sublist (unique_next_urls seen l) l.
Proof.
  induction l as [|x l IH]; intros seen; simpl; [done|].
  case_bool_decide; [apply sublist_cons, IH | apply sublist_skip, IH].
Qed.

Lemma unique_next_urls_NoDup_id l : ∀ seen,
  NoDup l → (∀ u, u ∈ l → u ∉ seen) → unique_next_urls seen l = l.
Proof.
  induction l as [|x l IH]; intros seen Hnd Hseen; [done|]. simpl.
  apply NoDup_cons in Hnd as [Hx Hnd].
  rewrite bool_decide_eq_false_2 by apply Hseen, list_elem_of_here.
  f_equal. apply IH; [done|]. intros u Hu.
  rewrite not_elem_of_union, not_elem_of_singleton. split.
  - by apply Hseen, list_elem_of_further.
  - by intros ->.
Qed.

(** X8. The list [crawl_depth_level] builds from the results of its tasks
    has no duplicate, holds every URL of the results and no other, and keeps
    the URLs in the order of the results; a list without duplicates is
    left as it is. *)
Theorem unique_next_urls_keeps_first_occurrences next_level_urls :
  NoDup (unique_next_urls ∅ next_level_urls)
  ∧ (∀ u, u ∈ unique_next_urls ∅ next_level_urls ↔ u ∈ next_level_urls)
  ∧ sublist (unique_next_urls ∅ next_level_urls) next_level_urls
  ∧ (NoDup next_level_urls →
     unique_next_urls ∅ next_level_urls = next_level_urls).
Proof.
  split; [apply unique_next_urls_NoDup|].
  split.
  { intros u. rewrite unique_next_urls_spec. split; [by intros [? _]|].
    intros Hu. split; [done | apply not_elem_of_empty]. }
  split; [apply unique_next_urls_sublist|].
  intros Hnd. apply unique_next_urls_NoDup_id; [done|].
  intros u _. apply not_elem_of_empty.
Qed.

(** ** The depth crawler: the pages of the records, the URLs fetched *)

Section CrawlSystem.

Variable is_ipv6_address : string -> bool.
Variable nfkc : string -> string.

Local Abbreviation process_url_start := (process_url_start is_ipv6_address nfkc).
Local Abbreviation process_url_finish := (process_url_finish is_ipv6_address nfkc).
Local Abbreviation extract_links_with_text :=
  (extract_links_with_text is_ipv6_address nfkc).
Local Abbreviation step := (step is_ipv6_address nfkc).
Local Abbreviation run := (run is_ipv6_address nfkc).
Local Abbreviation crawl_depth_level := (crawl_depth_level is_ipv6_address nfkc).
Local Abbreviation crawl_loop := (crawl_loop is_ipv6_address nfkc).
Local Abbreviation crawl := (crawl is_ipv6_address nfkc).

Lemma extract_links_found_on soup base_url links link :
  extract_links_with_text soup base_url = Some links →
  link ∈ links → found_on_url link = base_url.
Proof.
  unfold extract_links_with_text.
  destruct (links_and_text _ _ _ _) as [l|]; [|done]. simpl.
  intros [= <-] ([k v] & -> & _)%list_elem_of_fmap. done.
Qed.

Lemma aggregate_link_is_Some d c next link u :
  is_Some (all_links c !! u) →
  is_Some (all_links (fst (aggregate_link d (c, next) link)) !! u).
Proof.
  intros Hu. destruct (decide (u = url link)) as [->|Hne].
  - destruct (all_links c !! url link) as [r|] eqn:Hr.
    + by rewrite (aggregate_link_known _ _ _ _ _ Hr).
    + by rewrite (aggregate_link_new _ _ _ _ Hr).
  - by rewrite aggregate_link_other.
Qed.

Lemma aggregate_link_registers d c next link :
  is_Some (all_links (fst (aggregate_link d (c, next) link)) !! url link).
Proof.
  destruct (all_links c !! url link) as [r|] eqn:Hr.
  - by rewrite (aggregate_link_known _ _ _ _ _ Hr).
  - by rewrite (aggregate_link_new _ _ _ _ Hr).
Qed.

Lemma aggregate_link_next d c next link u :
  u ∈ snd (aggregate_link d (c, next) link) → u ∈ next ∨ u = url link.
Proof.
  simpl. destruct (_ && _); [|by left].
  intros [?|?%list_elem_of_singleton]%elem_of_app; [by left|by right].
Qed.

Lemma aggregate_link_sources d c next link :
  found_on_url link ∈ fetched c → sources_fetched c →
  sources_fetched (fst (aggregate_link d (c, next) link)).
Proof.
  intros Hp Hs u r p. destruct (decide (u = url link)) as [->|Hne].
  - destruct (all_links c !! url link) as [r0|] eqn:Hr.
    + rewrite (aggregate_link_known _ _ _ _ _ Hr). intros [= <-]. simpl.
      destruct (Py.in_list _ _); [by apply (Hs _ _ _ Hr)|].
      intros [Hin | ->%list_elem_of_singleton]%elem_of_app;
        [by apply (Hs _ _ _ Hr)|done].
    + rewrite (aggregate_link_new _ _ _ _ Hr). intros [= <-]. simpl.
      by intros ->%list_elem_of_singleton.
  - rewrite aggregate_link_other by done. apply Hs.
Qed.

(** The aggregation loop of one page [url] that was fetched *)
Lemma aggregate_links_system start_url d url links : ∀ c next,
  (∀ link, link ∈ links → found_on_url link = url) →
  url ∈ fetched c →
  sources_fetched c → fetched_registered start_url c →
  (∀ u, u ∈ next → is_Some (all_links c !! u)) →
  let st' := fold_left (aggregate_link d) links (c, next) in
  sources_fetched st'.1 ∧ fetched_registered start_url st'.1
  ∧ fetched st'.1 = fetched c
  ∧ (∀ u, is_Some (all_links c !! u) → is_Some (all_links st'.1 !! u))
  ∧ (∀ u, u ∈ st'.2 → is_Some (all_links st'.1 !! u)).
Proof.
  induction links as [|link links IH]; intros c next Hon Hurl Hs Hr Hnext.
  - simpl. done.
  - cbn [fold_left].
    pose proof (aggregate_link_sources d c next link) as H1.
    pose proof (λ u, aggregate_link_is_Some d c next link u) as H2.
    pose proof (aggregate_link_registers d c next link) as H3.
    pose proof (λ u, aggregate_link_next d c next link u) as H4.
    pose proof (aggregate_link_fields d c next link) as (_ & _ & H5).
    destruct (aggregate_link d (c, next) link) as [c1 next1].
    cbn [fst snd] in *.
    rewrite (Hon link) in H1 by apply list_elem_of_here.
    destruct (IH c1 next1) as (I1 & I2 & I3 & I4 & I5).
    + intros l Hl. apply Hon. by apply list_elem_of_further.
    + by rewrite H5.
    + by apply H1.
    + intros u Hu. rewrite H5 in Hu. destruct (Hr u Hu) as [->|Hu'];
        [by left | right; by apply H2].
    + intros u [Hu | ->]%H4; [by apply H2, Hnext | done].
    + split; [done|]. split; [done|]. split; [by rewrite I3|].
      split; [|done]. intros u Hu. by apply I4, H2.
Qed.

Lemma process_url_finish_system start_url c url d content :
  url ∈ fetched c → sources_fetched c → fetched_registered start_url c →
  let st' := process_url_finish c url d content in
  sources_fetched st'.1 ∧ fetched_registered start_url st'.1
  ∧ fetched st'.1 = fetched c
  ∧ (∀ u, is_Some (all_links c !! u) → is_Some (all_links st'.1 !! u))
  ∧ (∀ u, u ∈ st'.2 → is_Some (all_links st'.1 !! u)).
Proof.
  intros Hurl Hs Hr. unfold process_url_finish.
  destruct content as [soup|].
  2:{ simpl. repeat split; try done. by intros u ?%elem_of_nil. }
  destruct (extract_links_with_text soup url) as [links|] eqn:E.
  2:{ simpl. repeat split; try done. by intros u ?%elem_of_nil. }
  apply (aggregate_links_system start_url d url); try done.
  - intros link Hl. by eapply extract_links_found_on.
  - by intros u ?%elem_of_nil.
Qed.

Lemma level_invariant_step start_url d base_domain st ev st' :
  step d base_domain st ev = Some st' →
  level_invariant start_url st → level_invariant start_url st'.
Proof.
  destruct st as [c tasks]. unfold step, level_invariant. cbn [fst snd].
  intros Hstep (Hs & Hr & Ht). destruct ev as [i|i content].
  - destruct (tasks !! i) as [[url| |]|] eqn:Hi; try done.
    pose proof (Ht i _ Hi) as Hreg. cbn in Hreg.
    destruct (process_url_start c url base_domain) as [c1|] eqn:E.
    + injection Hstep as <-. cbn [fst snd].
      unfold process_url_start in E. destruct (negb _); [done|].
      case_bool_decide; [done|]. injection E as <-. cbn.
      split; [|split].
      * intros u r p Hu Hp. apply elem_of_app. left. by eapply Hs.
      * intros u [Hu | ->%list_elem_of_singleton]%elem_of_app;
          [by apply Hr | done].
      * intros j t [[-> [<- _]] | [Hne Hj]]%list_lookup_insert_Some.
        -- apply elem_of_app. right. by apply list_elem_of_singleton.
        -- specialize (Ht j t Hj). destruct t; try done.
           apply elem_of_app. by left.
    + injection Hstep as <-. cbn [fst snd]. split; [done|]. split; [done|].
      intros j t [[-> [<- _]] | [Hne Hj]]%list_lookup_insert_Some.
      * by intros u ?%elem_of_nil.
      * by apply (Ht j).
  - destruct (tasks !! i) as [[|url|]|] eqn:Hi; try done.
    pose proof (Ht i _ Hi) as Hurl. cbn in Hurl.
    pose proof (process_url_finish_system start_url c url d content
                  Hurl Hs Hr) as (F1 & F2 & F3 & F4 & F5).
    destruct (process_url_finish c url d content) as [c1 next].
    injection Hstep as <-. cbn [fst snd] in *.
    split; [done|]. split; [done|].
    intros j t [[-> [<- _]] | [Hne Hj]]%list_lookup_insert_Some; [done|].
    specialize (Ht j t Hj). destruct t as [u|u|r].
    + destruct Ht as [->|Hu]; [by left | right; by apply F4].
    + by rewrite F3.
    + intros u Hu. by apply F4, Ht.
Qed.

Lemma level_invariant_run start_url d base_domain events : ∀ st st',
  run d base_domain st events = Some st' →
  level_invariant start_url st → level_invariant start_url st'.
Proof.
  induction events as [|ev events IH]; intros st st' Hrun Hinv.
  - by injection Hrun as <-.
  - cbn [run] in Hrun.
    destruct (step d base_domain st ev) as [st1|] eqn:E;
      simpl in Hrun; [|discriminate].
    eapply IH; [exact Hrun|]. by eapply level_invariant_step.
Qed.

Lemma results_Done tasks : ∀ rs,
  results tasks = Some rs → tasks = map Done rs.
Proof.
  induction tasks as [|t tasks IH]; intros rs; simpl.
  - by intros [= <-].
  - destruct t as [| |r]; try done.
    destruct (results tasks) as [rs'|]; [|done]. simpl.
    intros [= <-]. by rewrite (IH rs').
Qed.

Lemma crawl_depth_level_system start_url c events urls d base_domain c' next :
  crawl_depth_level c events urls d base_domain = Some (c', next) →
  sources_fetched c → fetched_registered start_url c →
  (∀ u, u ∈ urls → registered start_url c u) →
  sources_fetched c' ∧ fetched_registered start_url c'
  ∧ (∀ u, u ∈ next → registered start_url c' u).
Proof.
  unfold crawl_depth_level. intros Hlevel Hs Hr Hu.
  destruct (_ || _).
  - injection Hlevel as <- <-. split; [done|]. split; [done|].
    by intros u ?%elem_of_nil.
  - destruct (run d base_domain (c, map Pending urls) events)
      as [[c1 tasks]|] eqn:E; simpl in Hlevel; [|discriminate].
    destruct (results tasks) as [rs|] eqn:Hrs; simpl in Hlevel;
      [|discriminate].
    injection Hlevel as <- <-.
    apply (level_invariant_run start_url) in E.
    + destruct E as (E1 & E2 & E3). cbn [fst snd] in *.
      split; [done|]. split; [done|].
      intros u [Hin _]%unique_next_urls_spec. right.
      apply list_elem_of_In, in_concat in Hin as (r & Hr' & Hur).
      apply list_elem_of_In in Hr'. apply list_elem_of_In in Hur.
      apply results_Done in Hrs. subst tasks.
      apply list_elem_of_lookup in Hr' as [i Hi].
      apply (E3 i (Done r)); [|done].
      by rewrite list_lookup_fmap, Hi.
    + split; [done|]. split; [done|]. cbn [fst snd].
      intros i t Hi. rewrite list_lookup_fmap in Hi.
      destruct (urls !! i) as [u|] eqn:Hui; [|done].
      injection Hi as <-. apply Hu. by eapply list_elem_of_lookup_2.
Qed.

Lemma crawl_loop_system start_url schedule : ∀ c base_domain urls d c',
  crawl_loop schedule c base_domain urls d = Some c' →
  sources_fetched c → fetched_registered start_url c →
  (∀ u, u ∈ urls → registered start_url c u) →
  sources_fetched c' ∧ fetched_registered start_url c'.
Proof.
  induction schedule as [|events schedule IH];
    intros c bd urls d c' Hloop Hs Hr Hu; cbn [crawl_loop] in Hloop.
  - destruct (_ && _); [discriminate|]. by injection Hloop as <-.
  - destruct (_ && _); [|by injection Hloop as <-].
    destruct (crawl_depth_level c events urls d bd) as [[c1 next]|] eqn:E;
      simpl in Hloop; [|discriminate].
    destruct (crawl_depth_level_system start_url _ _ _ _ _ _ _ E Hs Hr Hu)
      as (L1 & L2 & L3).
    by eapply IH.
Qed.

Lemma crawl_system schedule m start_url c :
  crawl schedule m start_url = Some c →
  sources_fetched c ∧ fetched_registered start_url c.
Proof.
  unfold crawl.
  destruct (urlparse is_ipv6_address nfkc start_url "") as [p|]; [|done].
  simpl. intros Hloop.
  eapply crawl_loop_system; [exact Hloop| | |].
  - intros u r p0 Hu. simpl in Hu. by rewrite lookup_empty in Hu.
  - by intros u ?%elem_of_nil.
  - intros u ->%list_elem_of_singleton. by left.
Qed.

(** X6. When [crawl] returns, every page a record lists in [found_on_urls]
    was handed to [get_content] during the crawl. *)
Theorem found_on_urls_were_fetched schedule m start_url c u r p :
  crawl schedule m start_url = Some c →
  all_links c !! u = Some r → p ∈ found_on_urls r → p ∈ fetched c.
Proof. intros Hc. by apply (crawl_system _ _ _ _ Hc). Qed.

(** X7. When [crawl] returns, every URL handed to [get_content], the start
    URL apart, is a key of [all_links]. *)
Theorem fetched_urls_are_registered schedule m start_url c u :
  crawl schedule m start_url = Some c →
  u ∈ fetched c → u = start_url ∨ is_Some (all_links c !! u).
Proof. intros Hc. by apply (crawl_system _ _ _ _ Hc). Qed.

End CrawlSystem.

(** ** The URL normaliser removes the fragment *)

Module NoFragment.

Lemma char_in_app c s t :
  Py.char_in c (s +:+ t) = Py.char_in c s || Py.char_in c t.
Proof.
  induction s as [|a s IH]; [done|]. simpl. rewrite IH.
  by rewrite orb_assoc.
Qed.

Lemma char_in_partition c s d :
  Py.char_in c s = false →
  Py.char_in c (Py.partition s d).1 = false
  ∧ ∀ t, (Py.partition s d).2 = Some t → Py.char_in c t = false.
Proof.
  induction s as [|a s IH]; simpl; [done|].
  intros [Ha Hs]%orb_false_elim. destruct (Ascii.eqb a d).
  - simpl. split; [done|]. by intros t [= <-].
  - destruct (IH Hs) as [IH1 IH2]. destruct (Py.partition s d) as [h t].
    simpl in *. by rewrite Ha, IH1.
Qed.

Lemma partition_head c s :
  Py.char_in c (Py.partition s c).1 = false
  ∧ ((Py.partition s c).2 = None → Py.char_in c s = false).
Proof.
  induction s as [|a s [IH1 IH2]]; simpl; [done|].
  destruct (Ascii.eqb a c) eqn:E; [done|].
  destruct (Py.partition s c) as [h t]. simpl in *.
  rewrite E, IH1. split; [done|]. intros Ht. by rewrite IH2.
Qed.

Lemma char_in_span c p s :
  Py.char_in c s = false →
  Py.char_in c (Py.span p s).1 = false ∧ Py.char_in c (Py.span p s).2 = false.
Proof.
  induction s as [|a s IH]; simpl; [done|].
  intros H. pose proof H as [Ha Hs]%orb_false_elim. destruct (p a).
  - destruct (IH Hs) as [IH1 IH2]. destruct (Py.span p s) as [h t].
    simpl in *. by rewrite Ha, IH1.
  - simpl. by rewrite Ha, Hs.
Qed.

Lemma span_head c p s :
  p c = false → Py.char_in c (Py.span p s).1 = false.
Proof.
  intros Hc. induction s as [|a s IH]; simpl; [done|].
  destruct (p a) eqn:Ha; [|done].
  destruct (Py.span p s) as [h t]. simpl in *. rewrite IH, orb_false_r.
  apply Ascii.eqb_neq. intros ->. congruence.
Qed.

Lemma char_in_rsplit_from c s d h t :
  Py.char_in c s = false → Py.rsplit_from s d = Some (h, t) →
  Py.char_in c h = false ∧ Py.char_in c t = false.
Proof.
  revert h t. induction s as [|a s IH]; intros h t; simpl; [done|].
  intros H. pose proof H as [Ha Hs]%orb_false_elim.
  destruct (Py.rsplit_from s d) as [[h' t']|].
  - intros [= <- <-]. destruct (IH h' t' Hs eq_refl) as [IH1 IH2].
    simpl. by rewrite Ha, IH1.
  - destruct (Ascii.eqb a d); [|done]. intros [= <- <-]. simpl.
    by rewrite Ha, Hs.
Qed.

Lemma char_in_drop_last c s :
  Py.char_in c s = false → Py.char_in c (Py.drop_last s) = false.
Proof.
  induction s as [|a s IH]; [done|]. intros H.
  pose proof H as [Ha Hs]%orb_false_elim. destruct s as [|b s]; [done|].
  change (Py.drop_last (String a (String b s)))
    with (String a (Py.drop_last (String b s))).
  simpl. rewrite Ha. simpl. by apply IH.
Qed.

Lemma scheme_char_lower a :
  Urllib.scheme_char a = true → Ascii.eqb (Py.lower_char a) "#" = false.
Proof.
  destruct a as [[] [] [] [] [] [] [] []]; vm_compute; congruence.
Qed.

Lemma char_in_lower_scheme s :
  Py.all_chars Urllib.scheme_char s = true →
  Py.char_in "#" (Py.lower s) = false.
Proof.
  induction s as [|a s IH]; [done|]. simpl.
  intros [Ha Hs]%andb_true_iff. by rewrite scheme_char_lower, IH.
Qed.

Lemma char_in_tail c a s : Py.char_in c (String a s) = false →
  Py.char_in c s = false.
Proof. simpl. by intros [_ ?]%orb_false_elim. Qed.

Section Parse.

Variable is_ipv6_address : string -> bool.
Variable nfkc : string -> string.

Lemma urlsplit_no_hash url r :
  Urllib.urlsplit is_ipv6_address nfkc url "" = Some r →
  Py.char_in "#" (Urllib.s_scheme r) = false
  ∧ Py.char_in "#" (Urllib.s_netloc r) = false
  ∧ Py.char_in "#" (Urllib.s_path r) = false
  ∧ Py.char_in "#" (Urllib.s_query r) = false.
Proof.
  unfold Urllib.urlsplit.
  set (url0 := Py.filter_chars _ (Py.lstrip_by _ url)).
  change (Py.filter_chars _ (Py.strip_by _ "")) with "".
  set (su := match Py.partition url0 ":" with
             | (String a pre, Some rest) =>
                 if Py.is_alpha a
                    && Py.all_chars Urllib.scheme_char (String a pre)
                 then (Py.lower (String a pre), rest)
                 else ("", url0)
             | _ => ("", url0)
             end).
  assert (Py.char_in "#" su.1 = false) as Hscheme.
  { subst su. destruct (Py.partition url0 ":") as [[|a pre] [rest|]];
      try done.
    destruct (Py.is_alpha a && _) eqn:E; [|done].
    apply andb_true_iff in E as [_ E]. cbn [fst].
    by apply char_in_lower_scheme. }
  destruct su as [scheme url1]. cbn [fst] in Hscheme.
  set (nu := match url1 with
             | String "/" (String "/" rest) => _
             | _ => Some ("", url1)
             end).
  destruct nu as [[netloc url2]|] eqn:Hnu; [|done]. cbn [mbind option_bind].
  assert (Py.char_in "#" netloc = false) as Hnetloc.
  { subst nu.
    destruct url1 as [|a s]; [by injection Hnu as <- _|].
    destruct a as [[] [] [] [] [] [] [] []];
      try (by injection Hnu as <- _).
    destruct s as [|b rest]; [by injection Hnu as <- _|].
    destruct b as [[] [] [] [] [] [] [] []];
      try (by injection Hnu as <- _).
    unfold Urllib._splitnetloc in Hnu.
    pose proof (span_head "#" (fun a => negb (Py.char_in a "/?#")) rest
                  eq_refl) as Hspan.
    destruct (Py.span _ rest) as [n u]. cbn [fst] in Hspan.
    destruct (_ || _); [done|]. destruct (_ && _); [done|].
    by injection Hnu as <- _. }
  clear Hnu nu.
  pose proof (partition_head "#" url2) as [Hh Hnone].
  set (uf := match Py.partition url2 "#" with
             | (h, Some t) => (h, t)
             | (_, None) => (url2, "")
             end).
  assert (Py.char_in "#" uf.1 = false) as Huf.
  { subst uf. destruct (Py.partition url2 "#") as [h [t|]]; [done|].
    by apply Hnone. }
  destruct uf as [url3 fragment]. cbn [fst] in Huf.
  pose proof (char_in_partition "#" url3 "?" Huf) as [Hp1 Hp2].
  set (uq := match Py.partition url3 "?" with
             | (h, Some t) => (h, t)
             | (_, None) => (url3, "")
             end).
  assert (Py.char_in "#" uq.1 = false ∧ Py.char_in "#" uq.2 = false)
    as [Hpath Hquery].
  { subst uq. destruct (Py.partition url3 "?") as [h [t|]]; [|done].
    split; [done | by apply Hp2]. }
  destruct uq as [url4 query]. cbn [fst snd] in *.
  destruct (Urllib._checknetloc nfkc netloc); [|done].
  by intros [= <-].
Qed.

Lemma splitparams_no_hash url :
  Py.char_in "#" url = false →
  Py.char_in "#" (Urllib._splitparams url).1 = false
  ∧ Py.char_in "#" (Urllib._splitparams url).2 = false.
Proof.
  intros Hurl. unfold Urllib._splitparams.
  destruct (Py.rsplit_from url "/") as [[pre seg]|] eqn:E.
  - destruct (char_in_rsplit_from "#" _ _ _ _ Hurl E) as [Hpre Hseg].
    destruct (char_in_partition "#" seg ";" Hseg) as [Hh Ht].
    destruct (Py.partition seg ";") as [h [t|]]; simpl in *; [|done].
    rewrite char_in_app, Hpre, Hh. by rewrite (Ht t).
  - destruct (char_in_partition "#" url ";" Hurl) as [Hh Ht].
    destruct (Py.partition url ";") as [h [t|]]; simpl in *.
    + by rewrite Hh, (Ht t).
    + by rewrite char_in_drop_last.
Qed.

Lemma urlparse_no_hash url p :
  Urllib.urlparse is_ipv6_address nfkc url "" = Some p →
  Py.char_in "#" (Urllib.scheme p) = false
  ∧ Py.char_in "#" (Urllib.netloc p) = false
  ∧ Py.char_in "#" (Urllib.path p) = false
  ∧ Py.char_in "#" (Urllib.params p) = false
  ∧ Py.char_in "#" (Urllib.query p) = false.
Proof.
  unfold Urllib.urlparse.
  destruct (Urllib.urlsplit _ _ url "") as [[scheme netloc path query frag]|]
    eqn:E; [|done].
  apply urlsplit_no_hash in E as (H1 & H2 & H3 & H4). simpl in *.
  destruct (splitparams_no_hash path H3) as [H5 H6].
  destruct (_ && _).
  - destruct (Urllib._splitparams path) as [u ps]. by intros [= <-].
  - by intros [= <-].
Qed.

Lemma urlunparse_no_hash scheme netloc url params query :
  Py.char_in "#" scheme = false → Py.char_in "#" netloc = false →
  Py.char_in "#" url = false → Py.char_in "#" params = false →
  Py.char_in "#" query = false →
  Py.char_in "#" (Urllib.urlunparse scheme netloc url params query "") = false.
Proof.
  intros H1 H2 H3 H4 H5. unfold Urllib.urlunparse, Urllib.urlunsplit.
  cbn [Py.truthy].
  repeat match goal with
    | |- context [if ?b then _ else _] => destruct b
    end;
    rewrite ?char_in_app, ?H1, ?H2, ?H3, ?H4, ?H5; reflexivity.
Qed.

Lemma urldefrag_no_hash url r :
  Urllib.urldefrag is_ipv6_address nfkc url = Some r →
  Py.char_in "#" r.1 = false.
Proof.
  unfold Urllib.urldefrag. destruct (Py.char_in "#" url) eqn:E.
  - destruct (Urllib.urlparse _ _ url "") as [p|] eqn:Hp; [|done].
    simpl. intros [= <-]. simpl.
    apply urlparse_no_hash in Hp as (H1 & H2 & H3 & H4 & H5).
    by apply urlunparse_no_hash.
  - by intros [= <-].
Qed.

(** X10. The URL [normalize_url] returns has no [#]: the fragment is removed,
    whatever the URL and the base. *)
Theorem normalize_url_has_no_fragment url base_url normalized :
  normalize_url is_ipv6_address nfkc url base_url = Some normalized →
  Py.char_in "#" normalized = false.
Proof.
  unfold normalize_url.
  destruct (match base_url with Some b => _ | None => _ end)
    as [resolved|]; [|done]. cbn [mbind option_bind].
  destruct (urldefrag _ _ resolved) as [[defragged frag]|] eqn:E; [|done].
  apply urldefrag_no_hash in E. cbn [mbind option_bind fst] in *.
  destruct (urlparse _ _ defragged "") as [p|]; [|done].
  cbn [mbind option_bind]. destruct (_ && _); intros [= <-]; [|done].
  by apply char_in_drop_last.
Qed.

End Parse.

End NoFragment.

(** ** [extract_links_with_text] invents nothing *)

Section LinksSound.

Variable is_ipv6_address : string -> bool.
Variable nfkc : string -> string.

Local Abbreviation normalize_url := (normalize_url is_ipv6_address nfkc).
Local Abbreviation links_and_text := (links_and_text is_ipv6_address nfkc).
Local Abbreviation extract_links_with_text :=
  (extract_links_with_text is_ipv6_address nfkc).

Lemma links_and_text_sound anchors base_url : ∀ l link texts,
  links_and_text anchors base_url = Some l →
  (link, texts) ∈ l →
  ∃ a href, a ∈ anchors ∧ kept_href (e_tag a) = Some href
            ∧ normalize_url href (Some base_url) = Some link
            ∧ texts = anchor_texts (e_tag a).
Proof.
  induction anchors as [|a anchors IH]; intros l link texts Hl Hin.
  - injection Hl as <-. by apply elem_of_nil in Hin.
  - cbn [links_and_text] in Hl.
    destruct (kept_href (e_tag a)) as [href|] eqn:Hk.
    + destruct (normalize_url href (Some base_url)) as [n|] eqn:Hn; [|done].
      cbn [mbind option_bind] in Hl.
      destruct (links_and_text anchors base_url) as [rest|] eqn:E; [|done].
      injection Hl as <-. apply elem_of_cons in Hin as [[= -> ->]|Hin].
      * exists a, href. split; [apply list_elem_of_here | done].
      * destruct (IH _ _ _ eq_refl Hin) as (a' & href' & Ha' & H').
        exists a', href'. split; [by apply list_elem_of_further | done].
    + destruct (IH _ _ _ Hl Hin) as (a' & href' & Ha' & H').
      exists a', href'. split; [by apply list_elem_of_further | done].
Qed.

Lemma dict_update_sound d link texts k v t :
  (k, v) ∈ dict_update d link texts → t ∈ v →
  (∃ v0, (k, v0) ∈ d ∧ t ∈ v0) ∨ (k = link ∧ t ∈ texts).
Proof.
  induction d as [|[k0 v0] d IH]; simpl.
  - intros [= -> ->]%list_elem_of_singleton Ht. by right.
  - destruct (String.eqb_spec k0 link) as [->|Hk].
    + intros [[= -> ->]|Hin]%elem_of_cons Ht.
      * apply elem_of_union in Ht as [Ht|Ht]; [left|by right].
        exists v0. split; [apply list_elem_of_here | done].
      * left. exists v. split; [by apply list_elem_of_further | done].
    + intros [[= -> ->]|Hin]%elem_of_cons Ht.
      * left. exists v0. split; [apply list_elem_of_here | done].
      * destruct (IH Hin Ht) as [(v1 & Hv1 & Ht1)|[-> Ht']]; [left|by right].
        exists v1. split; [by apply list_elem_of_further | done].
Qed.

Lemma add_links_sound l : ∀ d k v t,
  (k, v) ∈ fold_left add_link l d → t ∈ v →
  (∃ v0, (k, v0) ∈ d ∧ t ∈ v0) ∨ (∃ texts, (k, texts) ∈ l ∧ t ∈ texts).
Proof.
  induction l as [|[link texts] l IH]; intros d k v t Hin Ht.
  - left. by exists v.
  - cbn [fold_left] in Hin.
    destruct (IH _ _ _ _ Hin Ht) as [(v0 & Hv0 & Ht0)|(ts & Hts & Ht')].
    + unfold add_link in Hv0. destruct (Py.truthy link).
      * destruct (dict_update_sound _ _ _ _ _ _ Hv0 Ht0)
          as [(v1 & Hv1 & Ht1)|[-> Ht1]].
        -- left. by exists v1.
        -- right. exists texts. split; [apply list_elem_of_here | done].
      * left. by exists v0.
    + right. exists ts. split; [by apply list_elem_of_further | done].
Qed.

(** X9. [extract_links_with_text] invents nothing: every text of every
    record is a text of an anchor of the page that has an [href], is not
    ignored and whose normalised link is the url of the record; and no
    record lists a text twice. *)
Theorem extract_links_with_text_sound soup base_url records :
  extract_links_with_text soup base_url = Some records →
  links_sound is_ipv6_address nfkc soup base_url records
  ∧ Forall (fun r => NoDup (associated_texts r)) records.
Proof.
  unfold extract_links_with_text.
  destruct (links_and_text _ base_url) as [l|] eqn:Hl; [|done].
  simpl. intros [= <-]. split.
  - intros r t ([k v] & -> & Hkv)%list_elem_of_fmap Ht. simpl in *.
    apply elem_of_elements in Ht.
    destruct (add_links_sound l [] k v t Hkv Ht)
      as [(v0 & Hv0 & _)|(texts & Hin & Ht')];
      [by apply elem_of_nil in Hv0|].
    destruct (links_and_text_sound _ _ _ _ _ Hl Hin)
      as (a & href & Ha & Hk & Hn & ->).
    by exists a, href.
  - apply Forall_fmap, Forall_forall. intros [k v] _. simpl.
    apply NoDup_elements.
Qed.

End LinksSound.

(** ** The parse tree and the containers of the detectors *)

Module Tree.

Lemma node_induction (P : node → Prop) :
  (∀ s, P (Text s)) →
  (∀ name attrs cs, Forall P cs → P (Tag name attrs cs)) →
  ∀ n, P n.
Proof.
  intros HT HG. fix IH 1. intros [s|name attrs cs]; [apply HT|].
  apply HG. induction cs as [|c cs IHcs]; constructor; [apply IH | apply IHcs].
Qed.

Lemma descendants_Tag name attrs cs :
  descendants (Tag name attrs cs) = children_descendants 0 cs.
Proof. reflexivity. Qed.

Lemma children_descendants_cons i c cs :
  children_descendants i (c :: cs) =
  ((if is_tag c then [mkElem [i] c] else []) ++
   map (fun e => mkElem (i :: e_path e) (e_tag e)) (descendants c)
   ++ children_descendants (S i) cs)%list.
Proof. reflexivity. Qed.

(** An element of [children_descendants i cs] is below the child [k]: its
    path starts with [i + k] and goes on with a path of this child. *)
Lemma children_descendants_elem cs : ∀ i e,
  e ∈ children_descendants i cs →
  ∃ k c q, nth_error cs k = Some c ∧ e_path e = (i + k)%nat :: q
           ∧ ((q = [] ∧ e_tag e = c ∧ is_tag c = true)
              ∨ ∃ e', e' ∈ descendants c ∧ q = e_path e'
                      ∧ e_tag e = e_tag e').
Proof.
  induction cs as [|c cs IH]; intros i e.
  - by intros ?%elem_of_nil.
  - rewrite children_descendants_cons, !elem_of_app.
    intros [He|[He|He]].
    + destruct (is_tag c) eqn:Hc; [|by apply elem_of_nil in He].
      apply list_elem_of_singleton in He as ->.
      exists 0%nat, c, []. rewrite Nat.add_0_r. split; [done|].
      split; [done|]. by left.
    + apply list_elem_of_fmap in He as (e' & -> & He').
      exists 0%nat, c, (e_path e'). rewrite Nat.add_0_r. split; [done|].
      split; [done|]. right. by exists e'.
    + destruct (IH _ _ He) as (k & c' & q & Hk & Hp & Hq).
      exists (S k), c', q. split; [done|]. split; [|done].
      rewrite Hp. f_equal. lia.
Qed.

Lemma descendants_element n : ∀ e,
  e ∈ descendants n →
  element_of n e ∧ is_tag (e_tag e) = true ∧ e_path e ≠ [].
Proof.
  induction n as [s|name attrs cs IH] using node_induction; intros e He.
  - by apply elem_of_nil in He.
  - rewrite descendants_Tag in He.
    apply children_descendants_elem in He
      as (k & c & q & Hk & Hp & Hq).
    rewrite Nat.add_0_l in Hp.
    unfold element_of. rewrite Hp. cbn [node_at contents_of]. rewrite Hk.
    destruct Hq as [(-> & -> & Hc)|(e' & He' & -> & ->)].
    + done.
    + rewrite Forall_forall in IH.
      assert (c ∈ cs) as Hin.
      { apply list_elem_of_In. by eapply nth_error_In. }
      destruct (IH c Hin e' He') as (H1 & H2 & H3). done.
Qed.

Lemma find_parent_element soup e p :
  find_parent soup e = Some p →
  element_of soup p ∧ e_path p = removelast (e_path e) ∧ e_path e ≠ [].
Proof.
  unfold find_parent, element_of.
  destruct (e_path e) as [|i q] eqn:Hq; [done|].
  destruct (node_at soup (removelast (i :: q))) as [n|] eqn:Hn; [|done].
  by intros [= <-].
Qed.

Lemma within_parents_step n e c p :
  within_parents n e c → e_path p = removelast (e_path c) → e_path c ≠ [] →
  within_parents (S n) e p.
Proof.
  intros [Hpre Hlen] Hp Hne. unfold within_parents. rewrite Hp.
  split.
  - etrans; [|exact Hpre]. rewrite removelast_firstn_len. apply prefix_take.
  - rewrite removelast_firstn_len, length_take.
    destruct (e_path c); [done|]. simpl in *. lia.
Qed.

Lemma within_parents_refl n e : within_parents n e e.
Proof. split; [done | lia]. Qed.

Lemma within_parents_mono n m e c :
  (n ≤ m)%nat → within_parents n e c → within_parents m e c.
Proof. intros Hnm [? ?]. split; [done | lia]. Qed.

(** Membership in the sets and lists of the detectors *)

Lemma set_add_elem s e x : x ∈ set_add s e → x ∈ s ∨ x = e.
Proof.
  unfold set_add. destruct (existsb _ s); [by left|].
  intros [?|?%list_elem_of_singleton]%elem_of_app; [by left | by right].
Qed.

Lemma set_add_all_elem es : ∀ s x,
  x ∈ set_add_all s es → x ∈ s ∨ x ∈ es.
Proof.
  unfold set_add_all.
  induction es as [|e es IH]; intros s x; simpl; [by left|].
  intros [[Hx| ->]%set_add_elem|Hx]%IH.
  - by left.
  - right. apply list_elem_of_here.
  - right. by apply list_elem_of_further.
Qed.

Lemma selected_elem soup sels : ∀ s x,
  x ∈ fold_left (fun s sel => set_add_all s (select soup sel)) sels s →
  x ∈ s ∨ x ∈ descendants soup.
Proof.
  induction sels as [|sel sels IH]; intros s x; simpl; [by left|].
  intros [[Hx|Hx]%set_add_all_elem|Hx]%IH; [by left| |by right].
  right. unfold select in Hx.
  apply list_elem_of_In, filter_In in Hx as [Hx _]. by apply list_elem_of_In.
Qed.

Lemma containers_elem (walk : elem → elem) es : ∀ s x,
  x ∈ fold_left (fun s element => set_add s (walk element)) es s →
  x ∈ s ∨ ∃ e, e ∈ es ∧ x = walk e.
Proof.
  induction es as [|e es IH]; intros s x; simpl; [by left|].
  intros [[Hx| ->]%set_add_elem|(e' & He' & ->)]%IH.
  - by left.
  - right. exists e. split; [apply list_elem_of_here | done].
  - right. exists e'. split; [by apply list_elem_of_further | done].
Qed.

Lemma insert_by_elem before x l y :
  y ∈ insert_by before x l ↔ y = x ∨ y ∈ l.
Proof.
  induction l as [|z l IH]; simpl.
  - rewrite list_elem_of_singleton. split; [by left|].
    by intros [?|?%elem_of_nil].
  - destruct (before z x).
    + rewrite !elem_of_cons, IH. tauto.
    + rewrite !elem_of_cons. tauto.
Qed.

Lemma sorted_elem before l : ∀ acc y,
  y ∈ fold_left (fun acc x => insert_by before x acc) l acc →
  y ∈ acc ∨ y ∈ l.
Proof.
  induction l as [|x l IH]; intros acc y; simpl; [by left|].
  intros [[->|Hy]%insert_by_elem|Hy]%IH.
  - right. apply list_elem_of_here.
  - by left.
  - right. by apply list_elem_of_further.
Qed.

Lemma sorted_by_len_elem l y : y ∈ sorted_by_len l → y ∈ l.
Proof.
  unfold sorted_by_len. by intros [?%elem_of_nil|?]%sorted_elem.
Qed.

Lemma sorted_by_len_reverse_elem l y : y ∈ sorted_by_len_reverse l → y ∈ l.
Proof.
  unfold sorted_by_len_reverse. by intros [?%elem_of_nil|?]%sorted_elem.
Qed.

Lemma slice_to_elem {A} (l : list A) n x : x ∈ slice_to l n → x ∈ l.
Proof. unfold slice_to. destruct (0 <=? n)%Z; apply subseteq_take. Qed.

End Tree.

Module Detectors.
Import Tree.

Lemma find_all_elem soup names x :
  x ∈ find_all soup names → x ∈ descendants soup.
Proof.
  unfold find_all. intros [Hx _]%list_elem_of_In%filter_In.
  by apply list_elem_of_In.
Qed.

Lemma filter_find_all_elem (p : elem → bool) soup names x :
  x ∈ List.filter p (find_all soup names) → x ∈ descendants soup.
Proof.
  intros [Hx _]%list_elem_of_In%filter_In.
  by eapply find_all_elem, list_elem_of_In.
Qed.

Lemma pagination_candidate_elements_elem soup x :
  x ∈ pagination_candidate_elements soup → x ∈ descendants soup.
Proof.
  unfold pagination_candidate_elements.
  intros [[?%elem_of_nil|?]%selected_elem|?%filter_find_all_elem]
    %set_add_all_elem; done.
Qed.

Lemma cookie_candidate_elements_elem soup x :
  x ∈ cookie_candidate_elements soup → x ∈ descendants soup.
Proof.
  unfold cookie_candidate_elements.
  intros [[?%elem_of_nil|?]%selected_elem|?%filter_find_all_elem]
    %set_add_all_elem; done.
Qed.

Lemma drop_redundant_elem l x : x ∈ drop_redundant l → x ∈ l.
Proof.
  unfold drop_redundant.
  assert (∀ acc, x ∈ fold_left
            (fun final_containers container =>
               if existsb (in_find_all container) final_containers
               then final_containers
               else (final_containers ++ [container])%list) l acc →
          x ∈ acc ∨ x ∈ l) as H.
  { induction l as [|c l IH]; intros acc; simpl; [by left|].
    intros [Hx|Hx]%IH; [|right; by apply list_elem_of_further].
    destruct (existsb _ acc); [by left|].
    apply elem_of_app in Hx as [?| ->%list_elem_of_singleton]; [by left|].
    right. apply list_elem_of_here. }
  by intros [?%elem_of_nil|?]%H.
Qed.

Lemma pagination_container_near soup n : ∀ e0 k e,
  element_of soup e → within_parents k e0 e →
  element_of soup (pagination_container soup n e)
  ∧ within_parents (k + n) e0 (pagination_container soup n e).
Proof.
  induction n as [|n IH]; intros e0 k e He Hk; simpl.
  - split; [done|]. by rewrite Nat.add_0_r.
  - destruct (find_parent soup e) as [p|] eqn:Hp.
    + apply find_parent_element in Hp as (Hp1 & Hp2 & Hp3).
      pose proof (within_parents_step _ _ _ _ Hk Hp2 Hp3) as Hstep.
      destruct (pagination_good_parent (e_tag p)).
      * split; [done|]. eapply within_parents_mono; [|exact Hstep]. lia.
      * destruct (IH e0 (S k) p Hp1 Hstep) as [I1 I2]. split; [done|].
        by replace (k + S n)%nat with (S k + n)%nat by lia.
    + split; [done|]. eapply within_parents_mono; [|exact Hk]. lia.
Qed.

Lemma cookie_container_near soup n : ∀ e0 k e,
  element_of soup e → within_parents k e0 e →
  element_of soup (cookie_container soup n e)
  ∧ within_parents (k + n) e0 (cookie_container soup n e).
Proof.
  induction n as [|n IH]; intros e0 k e He Hk; cbn [cookie_container].
  - split; [done|]. by rewrite Nat.add_0_r.
  - destruct (find_parent soup e) as [p|] eqn:Hp.
    + apply find_parent_element in Hp as (Hp1 & Hp2 & Hp3).
      pose proof (within_parents_step _ _ _ _ Hk Hp2 Hp3) as Hstep.
      destruct (Py.in_list (name_of (e_tag p)) ["body"; "html"]).
      { split; [done|]. eapply within_parents_mono; [|exact Hk]. lia. }
      destruct (cookie_good_parent (e_tag p)).
      * split; [done|]. eapply within_parents_mono; [|exact Hstep]. lia.
      * destruct (IH e0 (S k) p Hp1 Hstep) as [I1 I2]. split; [done|].
        by replace (k + S n)%nat with (S k + n)%nat by lia.
    + split; [done|]. eapply within_parents_mono; [|exact Hk]. lia.
Qed.

Lemma cookie_container_below_body soup n : ∀ e,
  cookie_container soup n e = e
  ∨ Py.in_list (name_of (e_tag (cookie_container soup n e))) ["body"; "html"]
    = false.
Proof.
  induction n as [|n IH]; intros e; cbn [cookie_container]; [by left|].
  destruct (find_parent soup e) as [p|]; [|by left].
  destruct (Py.in_list (name_of (e_tag p)) ["body"; "html"]) eqn:Hb;
    [by left|].
  destruct (cookie_good_parent (e_tag p)); [by right|].
  destruct (IH p) as [-> | H]; by right.
Qed.

(** X12. Each container [find_pagination_candidates] makes a snippet of is a
    tag of the page (or the page itself): a candidate element, or one of its
    five nearest ancestors. *)
Theorem pagination_containers_are_near_ancestors soup max_candidates c :
  c ∈ find_pagination_containers soup max_candidates →
  element_of soup c
  ∧ ∃ e, e ∈ pagination_candidate_elements soup ∧ e ∈ descendants soup
         ∧ within_parents 5 e c.
Proof.
  unfold find_pagination_containers, pagination_final_containers,
    pagination_candidate_containers.
  intros [?%elem_of_nil|(e & He & ->)]
    %slice_to_elem%drop_redundant_elem%sorted_by_len_elem%containers_elem;
    [done|].
  pose proof (pagination_candidate_elements_elem _ _ He) as Hd.
  destruct (descendants_element _ _ Hd) as (Hel & _ & _).
  destruct (pagination_container_near soup 5 e 0 e Hel
              (within_parents_refl 0 e)) as [H1 H2].
  split; [done|]. by exists e.
Qed.

(** X13. Each container [find_cookie_consent_candidates] makes a snippet of
    is a tag of the page (or the page itself): a candidate element, or one
    of its five nearest ancestors; and the walk up from a candidate never
    ends on [body] or [html]. *)
Theorem cookie_containers_are_near_ancestors_below_body
  soup max_candidates c :
  c ∈ find_cookie_consent_containers soup max_candidates →
  element_of soup c
  ∧ ∃ e, e ∈ cookie_candidate_elements soup ∧ e ∈ descendants soup
         ∧ within_parents 5 e c
         ∧ (c = e
            ∨ Py.in_list (name_of (e_tag c)) ["body"; "html"] = false).
Proof.
  unfold find_cookie_consent_containers, cookie_final_containers,
    cookie_candidate_containers.
  intros [?%elem_of_nil|(e & He & ->)]
    %slice_to_elem%drop_redundant_elem%sorted_by_len_reverse_elem
    %containers_elem; [done|].
  pose proof (cookie_candidate_elements_elem _ _ He) as Hd.
  destruct (descendants_element _ _ Hd) as (Hel & _ & _).
  destruct (cookie_container_near soup 5 e 0 e Hel
              (within_parents_refl 0 e)) as [H1 H2].
  split; [done|]. exists e. split; [done|]. split; [done|].
  split; [done|]. apply cookie_container_below_body.
Qed.

(** The loop of [drop_redundant], from the containers already kept *)
Lemma drop_redundant_loop l : ∀ acc pre,
  sublist acc pre →
  (∀ i j a b, (i < j)%nat → acc !! i = Some a → acc !! j = Some b →
     in_find_all b a = false) →
  let final :=
    fold_left
      (fun final_containers container =>
         if existsb (in_find_all container) final_containers
         then final_containers
         else (final_containers ++ [container])%list) l acc in
  acc `prefix_of` final
  ∧ sublist final (pre ++ l)%list
  ∧ (∀ i j a b, (i < j)%nat → final !! i = Some a → final !! j = Some b →
       in_find_all b a = false)
  ∧ (∀ c, c ∈ l →
       c ∈ final ∨ ∃ k, k ∈ final ∧ in_find_all c k = true).
Proof.
  induction l as [|c l IH]; intros acc pre Hsub Hinv; cbn [fold_left].
  - rewrite app_nil_r. split; [done|]. split; [done|]. split; [done|].
    by intros c ?%elem_of_nil.
  - destruct (existsb (in_find_all c) acc) eqn:E.
    + destruct (IH acc (pre ++ [c])%list) as (I1 & I2 & I3 & I4).
      { by apply sublist_inserts_r. } { done. }
      rewrite <- app_assoc in I2. split; [done|]. split; [done|].
      split; [done|]. intros c' [->|Hc']%elem_of_cons; [|by apply I4].
      right. apply existsb_exists in E as (k & Hk & Hck).
      exists k. split; [|done].
      eapply elem_of_prefix; [|exact I1]. by apply list_elem_of_In.
    + destruct (IH (acc ++ [c])%list (pre ++ [c])%list)
        as (I1 & I2 & I3 & I4).
      { by apply sublist_app. }
      { intros i j a b Hij Ha Hb.
        destruct (decide (j < length acc)%nat) as [Hj|Hj].
        - rewrite lookup_app_l in Ha by lia. rewrite lookup_app_l in Hb by lia.
          exact (Hinv i j a b Hij Ha Hb).
        - assert (j = length acc) as ->.
          { apply lookup_lt_Some in Hb. rewrite length_app in Hb.
            simpl in Hb. lia. }
          rewrite lookup_app_l in Ha by lia.
          rewrite list_lookup_middle in Hb by done. injection Hb as <-.
          apply not_true_iff_false. intros Hba.
          apply not_true_iff_false in E. apply E.
          apply existsb_exists. exists a. split; [|done].
          by eapply list_elem_of_In, list_elem_of_lookup_2. }
      rewrite <- app_assoc in I2. split.
      { etrans; [|exact I1]. by apply prefix_app_r. }
      split; [done|]. split; [done|].
      intros c' [->|Hc']%elem_of_cons; [|by apply I4].
      left. eapply elem_of_prefix; [|exact I1].
      apply elem_of_app. right. apply list_elem_of_here.
Qed.

(** X14. The loop that drops redundant containers keeps the containers in
    their order; a container it keeps is not found below one kept before
    it; and a container it drops is found below one it kept. *)
Theorem drop_redundant_keeps_what_is_not_below sorted_containers :
  sublist (drop_redundant sorted_containers) sorted_containers
  ∧ (∀ i j a b, (i < j)%nat →
       drop_redundant sorted_containers !! i = Some a →
       drop_redundant sorted_containers !! j = Some b →
       in_find_all b a = false)
  ∧ (∀ c, c ∈ sorted_containers →
       c ∈ drop_redundant sorted_containers
       ∨ ∃ k, k ∈ drop_redundant sorted_containers
              ∧ in_find_all c k = true).
Proof.
  destruct (drop_redundant_loop sorted_containers [] [])
    as (_ & H1 & H2 & H3); [done | done |].
  done.
Qed.

(** X11. Both detectors return at most [max_candidates] snippets. *)
Theorem detectors_return_at_most_max_candidates soup max_candidates :
  (0 ≤ max_candidates)%Z →
  (Z.of_nat (length (find_pagination_candidates soup max_candidates))
   ≤ max_candidates)%Z
  ∧ (Z.of_nat (length (find_cookie_consent_candidates soup max_candidates))
     ≤ max_candidates)%Z.
Proof.
  intros Hmax.
  unfold find_pagination_candidates, find_cookie_consent_candidates,
    find_pagination_containers, find_cookie_consent_containers, slice_to.
  rewrite !length_map. destruct (Z.leb_spec 0 max_candidates); [|lia].
  rewrite !length_take. lia.
Qed.

End Detectors.

(** ** Blanked text: the snippets, [get_interactive_elements_html] *)

Module Blank.
Import Tree.












End Blank.

(** ** [truncate_string] *)

Module Truncate.

Lemma len_app s t : Py.len (s +:+ t) = (Py.len s + Py.len t)%nat.
Proof.
  induction s as [|a s IH]; [done|]. simpl.
  destruct (_ && _); simpl; by rewrite IH.
Qed.

Lemma len_take s : ∀ n, Py.len (Py.take n s) = (n `min` Py.len s)%nat.
Proof.
  induction s as [|a s IH]; intros n; simpl; [lia|].
  destruct (_ && _) eqn:E; simpl; rewrite ?E.
  - apply IH.
  - destruct n as [|n]; [done|]. simpl. rewrite E, IH. lia.
Qed.

(** X17. When the string is longer than [max_chars], the result of
    [truncate_string] is longer than [max_chars] too: it has the 42
    characters of the note after the [max_chars] it keeps.  With a negative
    [max_chars] the characters are cut from the end, and the note is
    added. *)
Theorem truncate_string_length s max_chars :
  (max_chars < Z.of_nat (Py.len s))%Z →
  ((0 ≤ max_chars)%Z →
   Z.of_nat (Py.len (truncate_string s max_chars)) = (max_chars + 42)%Z)
  ∧ ((max_chars < 0)%Z →
     Z.of_nat (Py.len (truncate_string s max_chars))
     = (Z.max 0 (Z.of_nat (Py.len s) + max_chars) + 42)%Z).
Proof.
  intros Hlt. unfold truncate_string, Py.slice_to.
  destruct (Z.leb_spec (Z.of_nat (Py.len s)) max_chars) as [?|_]; [lia|].
  rewrite len_app. change (Py.len truncated_note) with 42%nat.
  destruct (Z.leb_spec 0 max_chars); rewrite len_take; split; intros ?; lia.
Qed.

End Truncate.

(** ** The further theorems at the inputs of the examples *)

Lemma found_on_urls_were_fetched_witness :
  crawl Ex.no_ipv6 Ex.nfkc_ascii Ex.schedule 2 Ex.seed = Some Ex.final
  ∧ all_links Ex.final !! "https://example.com/a" = Some Ex.record_a
  ∧ Ex.seed ∈ found_on_urls Ex.record_a
  ∧ Ex.seed ∈ fetched Ex.final.
Proof.
  assert (crawl Ex.no_ipv6 Ex.nfkc_ascii Ex.schedule 2 Ex.seed
          = Some Ex.final) as H by (vm_compute; reflexivity).
  assert (all_links Ex.final !! "https://example.com/a" = Some Ex.record_a)
    as Hr by (vm_compute; reflexivity).
  assert (Ex.seed ∈ found_on_urls Ex.record_a) as Hp
    by (vm_compute; apply list_elem_of_here).
  split; [exact H|]. split; [exact Hr|]. split; [exact Hp|].
  exact (found_on_urls_were_fetched Ex.no_ipv6 Ex.nfkc_ascii Ex.schedule 2
           Ex.seed Ex.final "https://example.com/a" Ex.record_a Ex.seed
           H Hr Hp).
Defined.

Lemma fetched_urls_are_registered_witness :
  crawl Ex.no_ipv6 Ex.nfkc_ascii Ex.schedule 2 Ex.seed = Some Ex.final
  ∧ "https://example.com/a" ∈ fetched Ex.final
  ∧ ("https://example.com/a" = Ex.seed
     ∨ is_Some (all_links Ex.final !! "https://example.com/a")).
Proof.
  assert (crawl Ex.no_ipv6 Ex.nfkc_ascii Ex.schedule 2 Ex.seed
          = Some Ex.final) as H by (vm_compute; reflexivity).
  assert ("https://example.com/a" ∈ fetched Ex.final) as Hu
    by (vm_compute; apply list_elem_of_further, list_elem_of_here).
  split; [exact H|]. split; [exact Hu|].
  exact (fetched_urls_are_registered Ex.no_ipv6 Ex.nfkc_ascii Ex.schedule 2
           Ex.seed Ex.final "https://example.com/a" H Hu).
Defined.

Lemma extract_links_with_text_sound_witness :
  extract_links_with_text Ex.no_ipv6 Ex.nfkc_ascii Ex.page_seed Ex.seed
    = Some Ex.seed_links
  ∧ links_sound Ex.no_ipv6 Ex.nfkc_ascii Ex.page_seed Ex.seed Ex.seed_links
  ∧ Forall (fun r => NoDup (associated_texts r)) Ex.seed_links.
Proof.
  assert (extract_links_with_text Ex.no_ipv6 Ex.nfkc_ascii Ex.page_seed
            Ex.seed = Some Ex.seed_links) as H by (vm_compute; reflexivity).
  split; [exact H|].
  exact (extract_links_with_text_sound Ex.no_ipv6 Ex.nfkc_ascii
           Ex.page_seed Ex.seed Ex.seed_links H).
Defined.

Lemma normalize_url_has_no_fragment_witness :
  normalize_url Ex.no_ipv6 Ex.nfkc_ascii "/a/b/#top" (Some Ex.seed)
    = Some "https://example.com/a/b"
  ∧ Py.char_in "#" "https://example.com/a/b" = false.
Proof.
  assert (normalize_url Ex.no_ipv6 Ex.nfkc_ascii "/a/b/#top" (Some Ex.seed)
          = Some "https://example.com/a/b") as H
    by (vm_compute; reflexivity).
  split; [exact H|].
  exact (NoFragment.normalize_url_has_no_fragment Ex.no_ipv6 Ex.nfkc_ascii
           "/a/b/#top" (Some Ex.seed) "https://example.com/a/b" H).
Defined.

Lemma detectors_return_at_most_max_candidates_witness :
  (0 ≤ 1)%Z
  ∧ (Z.of_nat (length (find_pagination_candidates Ex.nested_page 1)) ≤ 1)%Z
  ∧ (Z.of_nat (length (find_cookie_consent_candidates Ex.nested_page 1))
     ≤ 1)%Z.
Proof.
  assert (0 ≤ 1)%Z as H by lia.
  split; [exact H|].
  exact (Detectors.detectors_return_at_most_max_candidates Ex.nested_page 1
           H).
Defined.

Lemma pagination_containers_are_near_ancestors_witness :
  Ex.nested_nav ∈ find_pagination_containers Ex.nested_page 5
  ∧ element_of Ex.nested_page Ex.nested_nav
  ∧ ∃ e, e ∈ pagination_candidate_elements Ex.nested_page
         ∧ e ∈ descendants Ex.nested_page
         ∧ within_parents 5 e Ex.nested_nav.
Proof.
  assert (Ex.nested_nav ∈ find_pagination_containers Ex.nested_page 5) as H
    by (vm_compute; apply list_elem_of_here).
  split; [exact H|].
  exact (Detectors.pagination_containers_are_near_ancestors Ex.nested_page 5
           Ex.nested_nav H).
Defined.

Lemma cookie_containers_are_near_ancestors_below_body_witness :
  Ex.cookie_div ∈ find_cookie_consent_containers Ex.cookie_page 5
  ∧ element_of Ex.cookie_page Ex.cookie_div
  ∧ ∃ e, e ∈ cookie_candidate_elements Ex.cookie_page
         ∧ e ∈ descendants Ex.cookie_page
         ∧ within_parents 5 e Ex.cookie_div
         ∧ (Ex.cookie_div = e
            ∨ Py.in_list (name_of (e_tag Ex.cookie_div)) ["body"; "html"]
              = false).
Proof.
  assert (Ex.cookie_div ∈ find_cookie_consent_containers Ex.cookie_page 5)
    as H by (vm_compute; apply list_elem_of_here).
  split; [exact H|].
  exact (Detectors.cookie_containers_are_near_ancestors_below_body
           Ex.cookie_page 5 Ex.cookie_div H).
Defined.



Lemma truncate_string_length_witness :
  (5 < Z.of_nat (Py.len "hello world"))%Z
  ∧ ((0 ≤ 5)%Z →
     Z.of_nat (Py.len (truncate_string "hello world" 5)) = (5 + 42)%Z)
  ∧ ((5 < 0)%Z →
     Z.of_nat (Py.len (truncate_string "hello world" 5))
     = (Z.max 0 (Z.of_nat (Py.len "hello world") + 5) + 42)%Z).
Proof.
  assert (5 < Z.of_nat (Py.len "hello world"))%Z as H
    by (vm_compute; reflexivity).
  split; [exact H|].
  exact (Truncate.truncate_string_length "hello world" 5 H).
Defined.
